(** * Nano Banana: the generation service and the workflow controller

    A shallow embedding of [src/services/gemini.ts] and of the handlers of
    [src/App.tsx], with the properties of the request/response lifecycle.

    - [Js]     : strings as UTF-16 code units, [String.prototype.trim],
                 truthiness, template literals, [Error] values.
    - [Async]  : the body of an [async] function as a finite tree of
                 synchronous effects and [await] points, with [try]/[catch]/
                 [finally].
    - [GenAI]  : the request and response shapes of the [@google/genai] SDK.
    - [Gemini] : [getAI] and [generateImage].
    - [App]    : the hooks of the [App] component, [handleGenerate],
                 [handleFileUpload], [removeFile], the Generate button, and
                 the event loop that interleaves them. *)

From Stdlib Require Import String Ascii List NArith ZArith Bool Lia.
Import ListNotations.

(* ================================================================== *)
(** ** JavaScript values *)

Module Js.

(** A JavaScript string is a sequence of 16-bit code units. *)
Definition jsstring : Type := list N.

(** A string literal of the source (ASCII only). *)
Definition lit (s : string) : jsstring :=
  map N_of_ascii (list_ascii_of_string s).

(** ECMAScript [WhiteSpace] and [LineTerminator] code units, the set
    [String.prototype.trim] strips. *)
Definition is_whitespace (c : N) : bool :=
  ((9 <=? c) && (c <=? 13)            (* TAB, LF, VT, FF, CR *)
   || (c =? 32)                       (* SPACE *)
   || (c =? 160)                      (* NO-BREAK SPACE *)
   || (c =? 5760)                     (* U+1680 *)
   || ((8192 <=? c) && (c <=? 8202))  (* U+2000 .. U+200A *)
   || (c =? 8232) || (c =? 8233)      (* U+2028, U+2029 *)
   || (c =? 8239)                     (* U+202F *)
   || (c =? 8287)                     (* U+205F *)
   || (c =? 12288)                    (* U+3000 *)
   || (c =? 65279))%N.                (* U+FEFF *)

Fixpoint trimStart (s : jsstring) : jsstring :=
  match s with
  | [] => []
  | c :: s' => if is_whitespace c then trimStart s' else s
  end.

Definition trimEnd (s : jsstring) : jsstring := rev (trimStart (rev s)).

(** [s.trim()] *)
Definition trim (s : jsstring) : jsstring := trimEnd (trimStart s).

(** Truthiness of a string: every string but the empty one. *)
Definition truthy (s : jsstring) : bool :=
  match s with [] => false | _ :: _ => true end.

(** [`${x}`] for a string-or-undefined [x]. *)
Definition template (x : option jsstring) : jsstring :=
  match x with Some s => s | None => lit "undefined" end.

(** An [Error] value, reduced to its message. *)
Record Error : Type := mkError { message : jsstring }.

(** The state of a settled promise. *)
Inductive Settled (A : Type) : Type :=
| Fulfilled (a : A)
| Rejected (e : Error).
Arguments Fulfilled {A} a.
Arguments Rejected {A} e.

(** A string all of whose code units are white space (the empty string
    included). *)
Definition whitespace_only (s : jsstring) : bool := forallb is_whitespace s.

End Js.
Import Js.

(* ================================================================== *)
(** ** Bodies of [async] functions *)

Module Async.
Section Proc.

(** [Req]/[Resp]: what an awaited call sends and what it settles with.
    [E X]: a synchronous effect answering with an [X]. *)
Context {Req Resp : Type} {E : Type -> Type}.

Inductive Proc (A : Type) : Type :=
| Ret (a : A)
| Throw (e : Error)
| Vis {X : Type} (ev : E X) (k : X -> Proc A)
| Await (req : Req) (k : Settled Resp -> Proc A).
Arguments Ret {A} a.
Arguments Throw {A} e.
Arguments Vis {A X} ev k.
Arguments Await {A} req k.

Fixpoint bind {A B} (p : Proc A) (f : A -> Proc B) : Proc B :=
  match p with
  | Ret a => f a
  | Throw e => Throw e
  | Vis ev k => Vis ev (fun x => bind (k x) f)
  | Await req k => Await req (fun o => bind (k o) f)
  end.

(** One synchronous effect. *)
Definition perform {X} (ev : E X) : Proc X := Vis ev Ret.

(** [await call(req)]: a rejection is thrown at the [await]. *)
Definition await (req : Req) : Proc Resp :=
  Await req (fun o => match o with
                      | Fulfilled r => Ret r
                      | Rejected e => Throw e
                      end).

(** [try { p } catch (error) { h error }] *)
Fixpoint try_catch {A} (p : Proc A) (h : Error -> Proc A) : Proc A :=
  match p with
  | Ret a => Ret a
  | Throw e => h e
  | Vis ev k => Vis ev (fun x => try_catch (k x) h)
  | Await req k => Await req (fun o => try_catch (k o) h)
  end.

(** [try { p } finally { f }]: [f] runs on both exits, then the outcome
    of [p] stands (unless [f] itself throws). *)
Fixpoint try_finally {A} (p : Proc A) (f : Proc unit) : Proc A :=
  match p with
  | Ret a => bind f (fun _ => Ret a)
  | Throw e => bind f (fun _ => Throw e)
  | Vis ev k => Vis ev (fun x => try_finally (k x) f)
  | Await req k => Await req (fun o => try_finally (k o) f)
  end.

(** [xs.map(f)] with an effectful callback, called in index order. *)
Fixpoint mapP {A B} (f : A -> Proc B) (xs : list A) : Proc (list B) :=
  match xs with
  | [] => Ret []
  | x :: xs' => bind (f x) (fun y => bind (mapP f xs') (fun ys => Ret (y :: ys)))
  end.

(** Where a body stands once it stops running: settled, or parked at an
    [await] with the rest of the body as continuation. *)
Inductive Status (A : Type) : Type :=
| Done (r : Settled A)
| Suspended (k : Settled Resp -> Proc A).
Arguments Done {A} r.
Arguments Suspended {A} k.

Section Interp.
Context {S : Type}.

(** How a synchronous effect acts on the world, and what issuing a call
    does to it. *)
Variable handle : forall X, E X -> S -> S * X.
Variable issue : Req -> S -> S.

(** Run a body up to its next [await] (or to its end). *)
Fixpoint exec {A} (p : Proc A) (s : S) : S * Status A :=
  match p with
  | Ret a => (s, Done (Fulfilled a))
  | Throw e => (s, Done (Rejected e))
  | Vis ev k => let (s', x) := handle _ ev s in exec (k x) s'
  | Await req k => (issue req s, Suspended k)
  end.

(** Run a body to its end against an endpoint that settles every call at
    once. *)
Variable endpoint : Req -> S -> Settled Resp.

Fixpoint run {A} (p : Proc A) (s : S) : S * Settled A :=
  match p with
  | Ret a => (s, Fulfilled a)
  | Throw e => (s, Rejected e)
  | Vis ev k => let (s', x) := handle _ ev s in run (k x) s'
  | Await req k => run (k (endpoint req s)) (issue req s)
  end.

End Interp.

End Proc.
Arguments Proc Req Resp E A : clear implicits.
Arguments Ret {Req Resp E A} a.
Arguments Throw {Req Resp E A} e.
Arguments Vis {Req Resp E A X} ev k.
Arguments Await {Req Resp E A} req k.
Arguments Status Req Resp E A : clear implicits.
Arguments Done {Req Resp E A} r.
Arguments Suspended {Req Resp E A} k.

(** Run a body written over the effects [E] where the effects are [F]. *)
Fixpoint translate {Req Resp : Type} {E F : Type -> Type}
  (f : forall X, E X -> F X) {A} (p : Proc Req Resp E A) : Proc Req Resp F A :=
  match p with
  | Ret a => Ret a
  | Throw e => Throw e
  | Vis ev k => Vis (f _ ev) (fun x => translate f (k x))
  | Await req k => Await req (fun o => translate f (k o))
  end.

Module Notations.
Notation "x <- p ;; q" := (bind p (fun x => q))
  (at level 61, p at next level, right associativity).
Notation "p ;;; q" := (bind p (fun _ => q))
  (at level 61, right associativity).
End Notations.
End Async.
Import Async Async.Notations.


(* ================================================================== *)
(** ** The SDK's request and response shapes *)

Module GenAI.

(** The [@google/genai] package is third-party code; only the members
    the service touches are kept.  A member the service tests for
    presence, or renders in a template, is an [option]. *)

(** [inlineData]: raw bytes, base64 encoded, with their MIME type. *)
Record Blob : Type := mkBlob {
  mimeType : option jsstring;
  data : option jsstring
}.

Record Part : Type := mkPart {
  text : option jsstring;
  inlineData : option Blob
}.

Record Content : Type := mkContent {
  parts : option (list Part)
}.

Record Candidate : Type := mkCandidate {
  content : option Content
}.

Record GenerateContentResponse : Type := mkResponse {
  candidates : option (list Candidate)
}.

Record ImageConfig : Type := mkImageConfig {
  aspectRatio : jsstring
}.

Record GenerateContentConfig : Type := mkConfig {
  imageConfig : ImageConfig
}.

(** The argument of [ai.models.generateContent]. *)
Record GenerateContentParameters : Type := mkParameters {
  model : jsstring;
  contents : Content;
  config : GenerateContentConfig
}.

(** [new GoogleGenAI({ apiKey })] *)
Record GoogleGenAI : Type := mkClient {
  apiKey : jsstring
}.

(** One outbound request: the client it goes through and its argument. *)
Record Call : Type := mkCall {
  client : GoogleGenAI;
  params : GenerateContentParameters
}.

End GenAI.

(* ================================================================== *)
(** ** [src/services/gemini.ts] *)

Module Gemini.

(** The synchronous effect of the service: reading
    [process.env.GEMINI_API_KEY]. *)
Inductive Eff : Type -> Type :=
| ReadApiKey : Eff (option jsstring).

Definition Service (A : Type) : Type :=
  Proc GenAI.Call GenAI.GenerateContentResponse Eff A.

Definition getAI : Service GenAI.GoogleGenAI :=
  apiKey <- perform ReadApiKey ;;
  match apiKey with
  | Some key =>
      if negb (truthy key)
      then Throw (mkError (lit "GEMINI_API_KEY is not set in the environment."))
      else Ret (GenAI.mkClient key)
  | None => Throw (mkError (lit "GEMINI_API_KEY is not set in the environment."))
  end.

Inductive AspectRatio : Type :=
| Ratio_1_1 | Ratio_16_9 | Ratio_9_16 | Ratio_4_3 | Ratio_3_4.

Inductive ModelType : Type :=
| Gemini_2_5_flash_image | Gemini_3_1_flash_image_preview.

(** The string each member of the two unions stands for. *)
Definition AspectRatio_string (r : AspectRatio) : jsstring :=
  match r with
  | Ratio_1_1 => lit "1:1"
  | Ratio_16_9 => lit "16:9"
  | Ratio_9_16 => lit "9:16"
  | Ratio_4_3 => lit "4:3"
  | Ratio_3_4 => lit "3:4"
  end.

Definition ModelType_string (m : ModelType) : jsstring :=
  match m with
  | Gemini_2_5_flash_image => lit "gemini-2.5-flash-image"
  | Gemini_3_1_flash_image_preview => lit "gemini-3.1-flash-image-preview"
  end.

(** [numImages] is a JavaScript number; the service never reads it. *)
Record GenerationConfig : Type := mkGenerationConfig {
  prompt : jsstring;
  aspectRatio : AspectRatio;
  model : ModelType;
  negativePrompt : option jsstring;
  numImages : option Z
}.

(** The argument [generateImage] passes to [generateContent]. *)
Definition request_of (config : GenerationConfig) : GenAI.GenerateContentParameters :=
  {| GenAI.model := ModelType_string (model config);
     GenAI.contents :=
       {| GenAI.parts := Some [ {| GenAI.text := Some (prompt config);
                                   GenAI.inlineData := None |} ] |};
     GenAI.config :=
       {| GenAI.imageConfig :=
            {| GenAI.aspectRatio := AspectRatio_string (aspectRatio config) |} |} |}.

(** [response.candidates?.[0]?.content?.parts] *)
Definition first_candidate_parts (response : GenAI.GenerateContentResponse)
  : option (list GenAI.Part) :=
  match GenAI.candidates response with
  | None => None
  | Some cs =>
      match nth_error cs 0 with
      | None => None
      | Some c =>
          match GenAI.content c with
          | None => None
          | Some ct => GenAI.parts ct
          end
      end
  end.

(** The [for (const part of ...)] loop, pushing onto [images]. *)
Fixpoint push_inline (images : list jsstring) (ps : list GenAI.Part) : list jsstring :=
  match ps with
  | [] => images
  | part :: rest =>
      match GenAI.inlineData part with
      | Some b =>
          push_inline
            (images ++ [lit "data:" ++ template (GenAI.mimeType b)
                        ++ lit ";base64," ++ template (GenAI.data b)])
            rest
      | None => push_inline images rest
      end
  end.

Definition generateImage (config : GenerationConfig) : Service (list jsstring) :=
  ai <- getAI ;;
  response <- await (GenAI.mkCall ai (request_of config)) ;;
  let images := [] in
  let images :=
    match first_candidate_parts response with
    | Some ps => push_inline images ps
    | None => images
    end in
  Ret images.

(** The process environment and the log of requests sent. *)
Record World : Type := mkWorld {
  GEMINI_API_KEY : option jsstring;
  sent : list GenAI.Call
}.

Definition handle (X : Type) (ev : Eff X) (w : World) : World * X :=
  match ev in Eff T return World * T with
  | ReadApiKey => (w, GEMINI_API_KEY w)
  end.

Definition issue (req : GenAI.Call) (w : World) : World :=
  {| GEMINI_API_KEY := GEMINI_API_KEY w; sent := sent w ++ [req] |}.

(** A call of the service against an endpoint that answers [net req]. *)
Definition call {A} (net : GenAI.Call -> Settled GenAI.GenerateContentResponse)
  (p : Service A) (w : World) : World * Settled A :=
  run handle issue (fun req _ => net req) p w.

End Gemini.

(* ================================================================== *)
(** ** [src/App.tsx] *)

Module App.

Module Image.
Record GeneratedImage : Type := mkGeneratedImage {
  id : jsstring;
  url : jsstring;
  prompt : jsstring;
  timestamp : Z
}.
End Image.
Definition GeneratedImage : Type := Image.GeneratedImage.

(** A DOM [File], reduced to its descriptive members. *)
Record File : Type := mkFile {
  name : jsstring;
  size : N;
  type : jsstring
}.

Inductive Theme : Type := light | dark.

(** The values of the [useState] hooks of [App] at one render. *)
Record State : Type := mkState {
  theme : Theme;
  prompt : jsstring;
  aspectRatio : Gemini.AspectRatio;
  model : Gemini.ModelType;
  isGenerating : bool;
  images : list GeneratedImage;
  uploadedFiles : list File
}.

(** [useState] initial values. *)
Definition initial : State :=
  {| theme := dark;
     prompt := lit "";
     aspectRatio := Gemini.Ratio_1_1;
     model := Gemini.Gemini_2_5_flash_image;
     isGenerating := false;
     images := [];
     uploadedFiles := [] |}.

(** The state updates the component enqueues; an updater function is
    named by the data its closure holds. *)
Inductive Setter : Type :=
| setTheme_toggle
    (* setTheme(prev => prev === 'light' ? 'dark' : 'light') *)
| setPrompt (value : jsstring)
| setAspectRatio (value : Gemini.AspectRatio)
| setModel (value : Gemini.ModelType)
| setIsGenerating (value : bool)
| setImages_prepend (newImages : list GeneratedImage)
    (* setImages(prev => [...newImages, ...prev]) *)
| setUploadedFiles_append (files : list File)
    (* setUploadedFiles(prev => [...prev, ...files].slice(0, 5)) *)
| setUploadedFiles_remove (index : nat).
    (* setUploadedFiles(prev => prev.filter((_, i) => i !== index)) *)

(** [prev.filter((_, i) => i !== index)], [i] counting from [from]. *)
Fixpoint filter_index_neq {A} (index from : nat) (prev : list A) : list A :=
  match prev with
  | [] => []
  | x :: rest =>
      if Nat.eqb from index
      then filter_index_neq index (S from) rest
      else x :: filter_index_neq index (S from) rest
  end.

Definition apply (s : Setter) (st : State) : State :=
  match s with
  | setTheme_toggle =>
      mkState (match theme st with light => dark | dark => light end)
              (prompt st) (aspectRatio st) (model st) (isGenerating st)
              (images st) (uploadedFiles st)
  | setPrompt v =>
      mkState (theme st) v (aspectRatio st) (model st) (isGenerating st)
              (images st) (uploadedFiles st)
  | setAspectRatio v =>
      mkState (theme st) (prompt st) v (model st) (isGenerating st)
              (images st) (uploadedFiles st)
  | setModel v =>
      mkState (theme st) (prompt st) (aspectRatio st) v (isGenerating st)
              (images st) (uploadedFiles st)
  | setIsGenerating v =>
      mkState (theme st) (prompt st) (aspectRatio st) (model st) v
              (images st) (uploadedFiles st)
  | setImages_prepend newImages =>
      mkState (theme st) (prompt st) (aspectRatio st) (model st) (isGenerating st)
              (newImages ++ images st) (uploadedFiles st)
  | setUploadedFiles_append files =>
      mkState (theme st) (prompt st) (aspectRatio st) (model st) (isGenerating st)
              (images st) (firstn 5 (uploadedFiles st ++ files))
  | setUploadedFiles_remove index =>
      mkState (theme st) (prompt st) (aspectRatio st) (model st) (isGenerating st)
              (images st) (filter_index_neq index 0 (uploadedFiles st))
  end.

(** The synchronous effects of the handlers. *)
Inductive Eff : Type -> Type :=
| Service {X : Type} (ev : Gemini.Eff X) : Eff X
| MathRandomId : Eff jsstring
    (* Math.random().toString(36).substr(2, 9) *)
| DateNow : Eff Z
| SetState (s : Setter) : Eff unit
| ConsoleError (msg : jsstring) (e : Error) : Eff unit
| Alert (msg : jsstring) : Eff unit.

Definition Handler (A : Type) : Type :=
  Proc GenAI.Call GenAI.GenerateContentResponse Eff A.

Definition generateImage (config : Gemini.GenerationConfig) : Handler (list jsstring) :=
  translate (@Service) (Gemini.generateImage config).

(** [handleGenerate] as the render with hook values [render] defines it:
    [prompt], [aspectRatio] and [model] are the closure's, the updater of
    [setImages] reads the state current when it is applied. *)
Definition handleGenerate (render : State) : Handler unit :=
  if negb (truthy (trim (prompt render))) then Ret tt else
  perform (SetState (setIsGenerating true)) ;;;
  try_finally
    (try_catch
       (results <- generateImage
                     {| Gemini.prompt := prompt render;
                        Gemini.aspectRatio := aspectRatio render;
                        Gemini.model := model render;
                        Gemini.negativePrompt := None;
                        Gemini.numImages := None |} ;;
        newImages <- mapP (fun url =>
                             id <- perform MathRandomId ;;
                             timestamp <- perform DateNow ;;
                             Ret {| Image.id := id;
                                    Image.url := url;
                                    Image.prompt := prompt render;
                                    Image.timestamp := timestamp |})
                          results ;;
        perform (SetState (setImages_prepend newImages)))
       (fun error =>
          perform (ConsoleError (lit "Generation failed:") error) ;;;
          perform (Alert (lit "Failed to generate image. Please check your API key."))))
    (perform (SetState (setIsGenerating false))).

(** [files] is [e.target.files]: a [FileList], or [null]. *)
Definition handleFileUpload (files : option (list File)) : Handler unit :=
  match files with
  | Some files => perform (SetState (setUploadedFiles_append files))
  | None => Ret tt
  end.

Definition removeFile (index : nat) : Handler unit :=
  perform (SetState (setUploadedFiles_remove index)).

(** [disabled={isGenerating || !prompt.trim()}] of the Generate button. *)
Definition generate_disabled (render : State) : bool :=
  isGenerating render || negb (truthy (trim (prompt render))).

(** What the handlers read from outside: the process environment, the
    clock ([now n] is what the [n]-th [Date.now()] returns) and the
    random identifiers ([random_id n] for the [n]-th draw). *)
Record Env : Type := mkEnv {
  GEMINI_API_KEY : option jsstring;
  now : nat -> Z;
  random_id : nat -> jsstring
}.

(** What a handler does that can be seen from outside it, in the order
    it does it. *)
Inductive Effect : Type :=
| Updated (s : Setter)
| Requested (req : GenAI.Call)
| Logged (msg : jsstring) (e : Error)
| Alerted (msg : jsstring).

(** What the handlers change: the hooks, the journal of their effects,
    and how often the clock and the random source were read. *)
Record World : Type := mkWorld {
  state : State;
  journal : list Effect;
  now_calls : nat;
  random_calls : nat
}.

Definition boot : World :=
  {| state := initial; journal := []; now_calls := 0; random_calls := 0 |}.

(** The requests sent, the notices shown and the state updates made, read
    off the journal. *)
Fixpoint sent_in (j : list Effect) : list GenAI.Call :=
  match j with
  | [] => []
  | Requested req :: rest => req :: sent_in rest
  | _ :: rest => sent_in rest
  end.

Fixpoint alerts_in (j : list Effect) : list jsstring :=
  match j with
  | [] => []
  | Alerted msg :: rest => msg :: alerts_in rest
  | _ :: rest => alerts_in rest
  end.

Definition sent (w : World) : list GenAI.Call := sent_in (journal w).
Definition alerts (w : World) : list jsstring := alerts_in (journal w).

Definition record (e : Effect) (w : World) : World :=
  mkWorld (state w) (journal w ++ [e]) (now_calls w) (random_calls w).

Definition handle (env : Env) (X : Type) (ev : Eff X) (w : World) : World * X :=
  match ev in Eff T return World * T with
  | Service gev =>
      match gev in Gemini.Eff T return World * T with
      | Gemini.ReadApiKey => (w, GEMINI_API_KEY env)
      end
  | MathRandomId =>
      (mkWorld (state w) (journal w) (now_calls w) (S (random_calls w)),
       random_id env (random_calls w))
  | DateNow =>
      (mkWorld (state w) (journal w) (S (now_calls w)) (random_calls w),
       now env (now_calls w))
  | SetState s =>
      (mkWorld (apply s (state w)) (journal w ++ [Updated s])
               (now_calls w) (random_calls w),
       tt)
  | ConsoleError msg e => (record (Logged msg e) w, tt)
  | Alert msg => (record (Alerted msg) w, tt)
  end.

Definition issue (req : GenAI.Call) (w : World) : World :=
  record (Requested req) w.

(** Run a handler until it returns or parks at its [await]. *)
Definition start {A} (env : Env) (p : Handler A) (w : World)
  : World * Status GenAI.Call GenAI.GenerateContentResponse Eff A :=
  exec (handle env) issue p w.

(** The page between two events: the world, and the handlers parked at
    an [await], oldest first. *)
Record System : Type := mkSystem {
  world : World;
  pending : list (Settled GenAI.GenerateContentResponse -> Handler unit)
}.

Inductive Event : Type :=
| Click_generate
    (* a click on the Generate button; a disabled button fires nothing *)
| Call_handleGenerate
    (* handleGenerate() called by a program *)
| Settle (i : nat) (outcome : Settled GenAI.GenerateContentResponse)
    (* the [i]-th outstanding request settles *)
| Change_prompt (value : jsstring)
| Change_files (files : option (list File))
| Click_remove (index : nat).

Definition dispatch (env : Env) (p : Handler unit) (w : World)
  (parked : list (Settled GenAI.GenerateContentResponse -> Handler unit)) : System :=
  match start env p w with
  | (w', Done _) => mkSystem w' parked
  | (w', Suspended k) => mkSystem w' (parked ++ [k])
  end.

Fixpoint remove_nth {A} (i : nat) (l : list A) : list A :=
  match l, i with
  | [], _ => []
  | _ :: rest, O => rest
  | x :: rest, S i' => x :: remove_nth i' rest
  end.

(** One event, met by a render of the hooks as they are now: React has
    rendered again since the handler before it ran. *)
Definition step (env : Env) (sys : System) (ev : Event) : System :=
  let w := world sys in
  match ev with
  | Click_generate =>
      if generate_disabled (state w) then sys
      else dispatch env (handleGenerate (state w)) w (pending sys)
  | Call_handleGenerate =>
      dispatch env (handleGenerate (state w)) w (pending sys)
  | Settle i outcome =>
      match nth_error (pending sys) i with
      | Some k => dispatch env (k outcome) w (remove_nth i (pending sys))
      | None => sys
      end
  | Change_prompt value =>
      dispatch env (perform (SetState (setPrompt value))) w (pending sys)
  | Change_files files =>
      dispatch env (handleFileUpload files) w (pending sys)
  | Click_remove index =>
      dispatch env (removeFile index) w (pending sys)
  end.

Definition steps (env : Env) (sys : System) (evs : list Event) : System :=
  fold_left (step env) evs sys.

End App.

(* ================================================================== *)
(** ** The specification's vocabulary *)

Module Spec.

(** A part that carries inline binary data. *)
Definition carries_inline_data (part : GenAI.Part) : bool :=
  match GenAI.inlineData part with Some _ => true | None => false end.

(** The parts of the response's first candidate; none when the response
    has no candidate, or the candidate no content, or the content no
    parts. *)
Definition first_candidate (response : GenAI.GenerateContentResponse)
  : list GenAI.Part :=
  match Gemini.first_candidate_parts response with
  | Some ps => ps
  | None => []
  end.

(** [data:<mime>;base64,<data>] *)
Definition data_uri (mime payload : jsstring) : jsstring :=
  lit "data:" ++ mime ++ lit ";base64," ++ payload.

(** The parts of the first candidate, read off the response itself: the
    head of [candidates], its [content], the [parts] of that; no part
    where one of the three is missing. *)
Definition first_parts (response : GenAI.GenerateContentResponse)
  : list GenAI.Part :=
  match response with
  | GenAI.mkResponse
      (Some (GenAI.mkCandidate (Some (GenAI.mkContent (Some ps))) :: _)) => ps
  | _ => []
  end.

(** A member of the inline data as it stands in the URI: its text, or
    the nine letters a template literal prints for a member that is not
    there. *)
Definition shown (member : option jsstring) : jsstring :=
  match member with
  | Some s => s
  | None => [117; 110; 100; 101; 102; 105; 110; 101; 100]%N
  end.

(** [uri] is [data:<mime>;base64,<data>] for the MIME type and the
    payload of the inline data of [part]. *)
Definition is_data_uri_of (part : GenAI.Part) (uri : jsstring) : Prop :=
  exists blob,
    GenAI.inlineData part = Some blob /\
    uri = data_uri (shown (GenAI.mimeType blob)) (shown (GenAI.data blob)).

(** The [n] most recent entries of a list kept in selection order. *)
Definition most_recent {A} (n : nat) (l : list A) : list A :=
  skipn (length l - n) l.

(** What [generateImage] returns for a response. *)
Definition payloads (response : GenAI.GenerateContentResponse) : list jsstring :=
  Gemini.push_inline [] (first_candidate response).

(** The records a batch creates for [urls], when the random source has
    been drawn [r] times and the clock read [n] times before: one draw and
    one reading per record, in order. *)
Fixpoint minted (env : App.Env) (prompt : jsstring) (urls : list jsstring)
  (r n : nat) : list App.GeneratedImage :=
  match urls with
  | [] => []
  | url :: rest =>
      App.Image.mkGeneratedImage (App.random_id env r) url prompt (App.now env n)
      :: minted env prompt rest (S r) (S n)
  end.

(** The notice a failed generation shows. *)
Definition failure_notice : jsstring :=
  lit "Failed to generate image. Please check your API key.".

(** The world a submission leaves when its request is fulfilled with
    [response] in world [w]: the batch in front of the history, then the
    flag cleared. *)
Definition after_success (env : App.Env) (render : App.State)
  (response : GenAI.GenerateContentResponse) (w : App.World) : App.World :=
  let newImages :=
    minted env (App.prompt render) (payloads response)
           (App.random_calls w) (App.now_calls w) in
  App.mkWorld
    (App.apply (App.setIsGenerating false)
       (App.apply (App.setImages_prepend newImages) (App.state w)))
    ((App.journal w ++ [App.Updated (App.setImages_prepend newImages)])
       ++ [App.Updated (App.setIsGenerating false)])
    (App.now_calls w + length (payloads response))
    (App.random_calls w + length (payloads response)).

(** The world a submission leaves when the service fails with [e] in
    world [w]: the error on the console, the notice, then the flag
    cleared. *)
Definition after_failure (e : Error) (w : App.World) : App.World :=
  App.mkWorld
    (App.apply (App.setIsGenerating false) (App.state w))
    (((App.journal w ++ [App.Logged (lit "Generation failed:") e])
        ++ [App.Alerted failure_notice])
       ++ [App.Updated (App.setIsGenerating false)])
    (App.now_calls w) (App.random_calls w).

(** The world once [handleGenerate] has set the flag, before the service
    is called. *)
Definition marked (w : App.World) : App.World :=
  App.mkWorld (App.apply (App.setIsGenerating true) (App.state w))
              (App.journal w ++ [App.Updated (App.setIsGenerating true)])
              (App.now_calls w) (App.random_calls w).

(** The request a submission from [render] sends through a client made
    with [key]. *)
Definition request (key : jsstring) (render : App.State) : GenAI.Call :=
  GenAI.mkCall (GenAI.mkClient key)
    (Gemini.request_of
       (Gemini.mkGenerationConfig (App.prompt render) (App.aspectRatio render)
                                  (App.model render) None None)).

(** The credential is set and not empty. *)
Definition has_key (env : App.Env) (key : jsstring) : Prop :=
  App.GEMINI_API_KEY env = Some key /\ truthy key = true.

(** The credential is not set, or empty. *)
Definition lacks_key (env : App.Env) : Prop :=
  App.GEMINI_API_KEY env = None \/ App.GEMINI_API_KEY env = Some [].

(** The error [getAI] throws. *)
Definition missing_key_error : Error :=
  mkError (lit "GEMINI_API_KEY is not set in the environment.").

(** The events the page itself can produce: everything but a direct call
    of [handleGenerate]. *)
Definition from_page (ev : App.Event) : bool :=
  match ev with
  | App.Call_handleGenerate => false
  | _ => true
  end.

(** A parked continuation that, however its request settles, runs to its
    end and leaves the flag false. *)
Definition clears (env : App.Env)
  (k : Settled GenAI.GenerateContentResponse -> App.Handler unit) : Prop :=
  forall outcome w, exists w',
    App.start env (k outcome) w = (w', Done (Fulfilled tt)) /\
    App.isGenerating (App.state w') = false.

(** No request outstanding and the flag false, or exactly one and the
    flag true. *)
Definition single_flight (env : App.Env) (sys : App.System) : Prop :=
  (App.pending sys = [] /\ App.isGenerating (App.state (App.world sys)) = false)
  \/ (exists k, App.pending sys = [k] /\
                App.isGenerating (App.state (App.world sys)) = true /\
                clears env k).

End Spec.

(* ================================================================== *)
(** ** A session to run the handlers on *)

Module Demo.

(** A credential, a clock that advances by one millisecond per reading
    from 1000, and identifiers that spell the index of the draw. *)
Definition env : App.Env :=
  {| App.GEMINI_API_KEY := Some (lit "key");
     App.now := fun n => (1000 + Z.of_nat n)%Z;
     App.random_id := fun n => [N.of_nat n] |}.

(** The same session without the credential. *)
Definition env_without_key : App.Env :=
  {| App.GEMINI_API_KEY := None;
     App.now := App.now env;
     App.random_id := App.random_id env |}.

Definition png : GenAI.Part :=
  {| GenAI.text := None;
     GenAI.inlineData :=
       Some {| GenAI.mimeType := Some (lit "image/png");
               GenAI.data := Some (lit "QUFB") |} |}.

Definition jpeg : GenAI.Part :=
  {| GenAI.text := None;
     GenAI.inlineData :=
       Some {| GenAI.mimeType := Some (lit "image/jpeg");
               GenAI.data := Some (lit "QkJC") |} |}.

Definition caption : GenAI.Part :=
  {| GenAI.text := Some (lit "Here you go."); GenAI.inlineData := None |}.

(** Two images with a text part between them. *)
Definition response : GenAI.GenerateContentResponse :=
  {| GenAI.candidates :=
       Some [ {| GenAI.content :=
                   Some {| GenAI.parts := Some [png; caption; jpeg] |} |} ] |}.

Definition config : Gemini.GenerationConfig :=
  {| Gemini.prompt := lit "a red bicycle";
     Gemini.aspectRatio := Gemini.Ratio_16_9;
     Gemini.model := Gemini.Gemini_2_5_flash_image;
     Gemini.negativePrompt := None;
     Gemini.numImages := None |}.

(** [config] with both optional members given. *)
Definition config_with_options : Gemini.GenerationConfig :=
  {| Gemini.prompt := lit "a red bicycle";
     Gemini.aspectRatio := Gemini.Ratio_16_9;
     Gemini.model := Gemini.Gemini_2_5_flash_image;
     Gemini.negativePrompt := Some (lit "cars");
     Gemini.numImages := Some 4%Z |}.

(** The hooks once the user has typed the prompt and picked 16:9. *)
Definition typed : App.State :=
  App.apply (App.setAspectRatio Gemini.Ratio_16_9)
    (App.apply (App.setPrompt (lit "a red bicycle")) App.initial).

(** The hooks with a prompt of two spaces and a line break. *)
Definition blank : App.State :=
  App.apply (App.setPrompt [32; 32; 10]%N) App.initial.

Definition world_of (st : App.State) : App.World :=
  {| App.state := st; App.journal := [];
     App.now_calls := 0; App.random_calls := 0 |}.

Definition file (n : N) : App.File :=
  {| App.name := lit "ref" ++ [(48 + n)%N];
     App.size := 1024;
     App.type := lit "image/png" |}.

(** Four files attached, in the order they were selected. *)
Definition four_attached : App.World :=
  world_of (App.apply (App.setUploadedFiles_append [file 1; file 2; file 3; file 4])
                      App.initial).

(** The page once the prompt is typed and [handleGenerate] has been
    called once. *)
Definition in_flight : App.System :=
  App.steps env (App.mkSystem App.boot [])
    [App.Change_prompt (lit "a red bicycle"); App.Call_handleGenerate].

(** The page after a whole submission that returned two images. *)
Definition two_images : App.System :=
  App.steps env in_flight [App.Settle 0 (Fulfilled response)].

End Demo.

(* ================================================================== *)
(** ** The rest of the page *)

Module Page.

(** Equality of strings, code unit by code unit ([===] on strings). *)
Fixpoint jsstring_eqb (a b : jsstring) : bool :=
  match a, b with
  | [], [] => true
  | x :: a', y :: b' => N.eqb x y && jsstring_eqb a' b'
  | _, _ => false
  end.

(** [classList.add(token)] and [classList.remove(token)] on the ordered
    set of class names of an element. *)
Definition classList_add (token : jsstring) (classes : list jsstring)
  : list jsstring :=
  if existsb (jsstring_eqb token) classes then classes else classes ++ [token].

Definition classList_remove (token : jsstring) (classes : list jsstring)
  : list jsstring :=
  filter (fun c => negb (jsstring_eqb token c)) classes.

(** The body of the theme effect, on the classes of
    [window.document.documentElement]. *)
Definition theme_effect (theme : App.Theme) (root : list jsstring)
  : list jsstring :=
  match theme with
  | App.dark => classList_add (lit "dark") root
  | App.light => classList_remove (lit "dark") root
  end.

Definition toggleTheme : App.Handler unit :=
  perform (App.SetState App.setTheme_toggle).

(** The ratios the aspect ratio menu lists: [['1:1', '16:9', '9:16']]. *)
Definition aspect_menu : list Gemini.AspectRatio :=
  [Gemini.Ratio_1_1; Gemini.Ratio_16_9; Gemini.Ratio_9_16].

(** [model === 'gemini-2.5-flash-image' ? 'Fast' : 'Pro'] *)
Definition model_label (render : App.State) : jsstring :=
  match App.model render with
  | Gemini.Gemini_2_5_flash_image => lit "Fast"
  | _ => lit "Pro"
  end.

(** The Recent Activity list: nothing but a text when there is no image,
    else [images.slice(0, 3)]. *)
Definition recent_activity (render : App.State) : option (list App.GeneratedImage) :=
  match App.images render with
  | [] => None
  | _ :: _ => Some (firstn 3 (App.images render))
  end.

(** [isGenerating && images.length === 0]: the three placeholders. *)
Definition shows_placeholders (render : App.State) : bool :=
  App.isGenerating render && Nat.eqb (length (App.images render)) 0.

Definition Theme_eqb (a b : App.Theme) : bool :=
  match a, b with
  | App.light, App.light | App.dark, App.dark => true
  | _, _ => false
  end.

(** The page: the controller's system and the classes of the document
    root. *)
Record Page : Type := mkPage {
  system : App.System;
  root : list jsstring
}.

Inductive Event : Type :=
| Controller (ev : App.Event)
    (* the events of the generation workflow *)
| Click_toggleTheme
| Click_ratio (i : nat)
    (* a click on the [i]-th button of the aspect ratio menu *)
| Click_fast
| Click_pro.

(** After an event React renders again, and the theme effect runs if
    [theme] is not what it was at the previous render. *)
Definition commit (before : App.State) (sys : App.System) (root : list jsstring)
  : Page :=
  let theme := App.theme (App.state (App.world sys)) in
  mkPage sys (if Theme_eqb (App.theme before) theme then root
              else theme_effect theme root).

Definition step (env : App.Env) (page : Page) (ev : Event) : Page :=
  let sys := system page in
  let w := App.world sys in
  let set s := App.dispatch env (perform (App.SetState s)) w (App.pending sys) in
  commit (App.state w)
    match ev with
    | Controller ev => App.step env sys ev
    | Click_toggleTheme => App.dispatch env toggleTheme w (App.pending sys)
    | Click_ratio i =>
        match nth_error aspect_menu i with
        | Some ratio => set (App.setAspectRatio ratio)
        | None => sys
        end
    | Click_fast => set (App.setModel Gemini.Gemini_2_5_flash_image)
    | Click_pro => set (App.setModel Gemini.Gemini_3_1_flash_image_preview)
    end
    (root page).

(** The first render, on a document whose root has the classes [root0]:
    the hooks take their initial values and the theme effect runs once. *)
Definition mount (root0 : list jsstring) : Page :=
  mkPage (App.mkSystem App.boot [])
         (theme_effect (App.theme App.initial) root0).

Definition steps (env : App.Env) (page : Page) (evs : list Event) : Page :=
  fold_left (step env) evs page.

(** The list of reference files once the handler [p] has run in [w]. *)
Definition files_after (env : App.Env) (p : App.Handler unit) (w : App.World)
  : list App.File :=
  App.uploadedFiles (App.state (fst (App.start env p w))).

End Page.

(* ================================================================== *)
(** ** What an event can do to the world *)

Module Reach.

(** A parked continuation that is the rest of a [handleGenerate] called
    at some render. *)
Definition genuine (env : App.Env)
  (k : Settled GenAI.GenerateContentResponse -> App.Handler unit) : Prop :=
  exists render,
    (forall response w,
       App.start env (k (Fulfilled response)) w
       = (Spec.after_success env render response w, Done (Fulfilled tt))) /\
    (forall e w,
       App.start env (k (Rejected e)) w
       = (Spec.after_failure e w, Done (Fulfilled tt))).

Definition sound (env : App.Env) (sys : App.System) : Prop :=
  Forall (genuine env) (App.pending sys).

(** The updates a control of the page makes directly. *)
Definition by_control (s : App.Setter) : Prop :=
  match s with
  | App.setTheme_toggle | App.setPrompt _ | App.setModel _
  | App.setUploadedFiles_append _ | App.setUploadedFiles_remove _ => True
  | App.setAspectRatio ratio => In ratio Page.aspect_menu
  | App.setIsGenerating _ | App.setImages_prepend _ => False
  end.

(** The world with one update applied. *)
Definition updated (s : App.Setter) (w : App.World) : App.World :=
  App.mkWorld (App.apply s (App.state w)) (App.journal w ++ [App.Updated s])
              (App.now_calls w) (App.random_calls w).

(** The ways one event changes the world. *)
Inductive Delta (env : App.Env) (w : App.World) : App.World -> Prop :=
| Nothing : Delta env w w
| Control (s : App.Setter) :
    by_control s -> Delta env w (updated s w)
| Refused :
    Delta env w (Spec.after_failure Spec.missing_key_error (Spec.marked w))
| Submitted (key : jsstring) :
    Delta env w (App.issue (Spec.request key (App.state w)) (Spec.marked w))
| Succeeded (render : App.State) (response : GenAI.GenerateContentResponse) :
    Delta env w (Spec.after_success env render response w)
| Failed (e : Error) :
    Delta env w (Spec.after_failure e w).

(** The aspect ratio a request asks for. *)
Definition ratio_of (req : GenAI.Call) : jsstring :=
  GenAI.aspectRatio (GenAI.imageConfig (GenAI.config (GenAI.params req))).


(** An event of the page that is not a direct call of
    [handleGenerate]. *)
Definition from_page (ev : Page.Event) : bool :=
  match ev with
  | Page.Controller ev => Spec.from_page ev
  | _ => true
  end.

End Reach.

(* ================================================================== *)
(** ** Updates queued, renders committed *)

Module Render.

(** A setter only queues its update: the button on screen and the
    handlers it calls stay those of the last render React committed,
    until the next one.  [live] is the system with every update made so
    far applied (what a functional updater reads); [shown] are the hooks
    of the render on screen. *)
Record Screen : Type := mkScreen {
  live : App.System;
  shown : App.State
}.

Inductive Input : Type :=
| Commit
    (* React renders again, with the hooks as they are now *)
| On (ev : Page.Event).

(** The hooks and requests after an event other than a click on
    Generate; these events call setters with values of their own or with
    functional updaters, so the render on screen plays no part. *)
Definition react (env : App.Env) (sys : App.System) (ev : Page.Event)
  : App.System :=
  Page.system (Page.step env (Page.mkPage sys []) ev).

(** The [handleGenerate] of the render on screen, run now. *)
Definition call_handleGenerate (env : App.Env) (screen : Screen) : Screen :=
  mkScreen
    (App.dispatch env (App.handleGenerate (shown screen))
                  (App.world (live screen)) (App.pending (live screen)))
    (shown screen).

Definition step (env : App.Env) (screen : Screen) (input : Input) : Screen :=
  match input with
  | Commit =>
      mkScreen (live screen) (App.state (App.world (live screen)))
  | On (Page.Controller App.Click_generate) =>
      if App.generate_disabled (shown screen) then screen
      else call_handleGenerate env screen
  | On (Page.Controller App.Call_handleGenerate) =>
      call_handleGenerate env screen
  | On ev =>
      mkScreen (react env (live screen) ev) (shown screen)
  end.

(** The first render. *)
Definition mount : Screen :=
  mkScreen (App.mkSystem App.boot []) App.initial.

Definition steps (env : App.Env) (screen : Screen) (inputs : list Input)
  : Screen :=
  fold_left (step env) inputs screen.

(** Every click on Generate is followed at once by a commit, and
    [handleGenerate] is never called directly. *)
Fixpoint paced (inputs : list Input) : bool :=
  match inputs with
  | [] => true
  | On (Page.Controller App.Click_generate) :: rest =>
      match rest with
      | Commit :: rest' => paced rest'
      | _ => false
      end
  | On (Page.Controller App.Call_handleGenerate) :: _ => false
  | _ :: rest => paced rest
  end.

(** No request outstanding wherever the button on screen is enabled for
    lack of a set flag, and at most one anywhere. *)
Definition settled (env : App.Env) (screen : Screen) : Prop :=
  Spec.single_flight env (live screen) /\
  (App.isGenerating (shown screen) = false -> App.pending (live screen) = []).

(** A prompt typed and rendered, then two clicks on Generate before
    React renders again. *)
Definition double_click : list Input :=
  [On (Page.Controller (App.Change_prompt (lit "a red bicycle")));
   Commit;
   On (Page.Controller App.Click_generate);
   On (Page.Controller App.Click_generate)].

(** The same with a render after each click, the request fulfilled, and
    a third click on the render that still shows the flag. *)
Definition paced_clicks : list Input :=
  [On (Page.Controller (App.Change_prompt (lit "a red bicycle")));
   Commit;
   On (Page.Controller App.Click_generate); Commit;
   On (Page.Controller App.Click_generate); Commit;
   On (Page.Controller (App.Settle 0 (Fulfilled Demo.response)));
   On (Page.Controller App.Click_generate); Commit;
   On Page.Click_toggleTheme].

End Render.

(* ================================================================== *)
(** ** A visit of the page *)

Module Tour.

(** The page with the prompt typed, nothing outstanding. *)
Definition ready : App.System :=
  App.mkSystem (Demo.world_of Demo.typed) [].

(** Five files attached. *)
Definition five_attached : App.World :=
  Demo.world_of
    (App.apply (App.setUploadedFiles_append
                  [Demo.file 1; Demo.file 2; Demo.file 3; Demo.file 4; Demo.file 5])
               App.initial).

(** The hooks of [Demo.typed] with two files attached, the light theme
    and the flag set. *)
Definition typed_otherwise : App.State :=
  App.apply (App.setIsGenerating true)
    (App.apply App.setTheme_toggle
       (App.apply (App.setUploadedFiles_append [Demo.file 1; Demo.file 2])
                  Demo.typed)).

(** A response with no candidate at all. *)
Definition no_candidates : GenAI.GenerateContentResponse :=
  {| GenAI.candidates := None |}.

Definition first : GenAI.Candidate :=
  {| GenAI.content := Some {| GenAI.parts := Some [Demo.png] |} |}.

Definition second : GenAI.Candidate :=
  {| GenAI.content := Some {| GenAI.parts := Some [Demo.jpeg] |} |}.

(** An endpoint error. *)
Definition quota : Error := mkError (lit "429 RESOURCE_EXHAUSTED").

(** Typing a prompt, picking a ratio and the other model, attaching
    files, and one whole generation. *)
Definition first_image : list Page.Event :=
  [Page.Controller (App.Change_prompt (lit "a red bicycle"));
   Page.Click_ratio 1;
   Page.Click_pro;
   Page.Controller (App.Change_files (Some [Demo.file 1; Demo.file 2]));
   Page.Controller App.Click_generate;
   Page.Controller (App.Settle 0 (Fulfilled Demo.response))].

(** Afterwards: the theme switched, a file removed, another click. *)
Definition afterwards : list Page.Event :=
  [Page.Click_toggleTheme;
   Page.Controller (App.Click_remove 0);
   Page.Controller App.Click_generate].

End Tour.

(* ================================================================== *)
(** ** Facts about [trim] *)

Section TrimFacts.

Lemma trimStart_nil_iff (s : jsstring) :
  trimStart s = [] <-> whitespace_only s = true.
Proof.
  unfold whitespace_only.
  induction s as [|c s IH]; simpl.
  - tauto.
  - destruct (is_whitespace c); simpl.
    + exact IH.
    + split; discriminate.
Qed.

Lemma trimStart_head (s : jsstring) c s' :
  trimStart s = c :: s' -> is_whitespace c = false.
Proof.
  induction s as [|d s IH]; simpl; [discriminate|].
  destruct (is_whitespace d) eqn:Hd; [exact IH|].
  intros [= <- _]. exact Hd.
Qed.

Lemma whitespace_only_rev (s : jsstring) :
  whitespace_only (rev s) = whitespace_only s.
Proof.
  unfold whitespace_only.
  induction s as [|c s IH]; simpl; [reflexivity|].
  rewrite forallb_app, IH. simpl.
  rewrite andb_true_r. apply andb_comm.
Qed.

Lemma trim_nil_iff (s : jsstring) :
  trim s = [] <-> whitespace_only s = true.
Proof.
  unfold trim, trimEnd. split.
  - intros H.
    assert (Hr : trimStart (rev (trimStart s)) = []).
    { destruct (trimStart (rev (trimStart s))) as [|c r] eqn:E; [reflexivity|].
      simpl in H. destruct (rev r); discriminate. }
    apply trimStart_nil_iff in Hr. rewrite whitespace_only_rev in Hr.
    destruct (trimStart s) as [|c s'] eqn:E.
    + apply trimStart_nil_iff. exact E.
    + apply trimStart_head in E. simpl in Hr. rewrite E in Hr. discriminate.
  - intros H. apply trimStart_nil_iff in H. rewrite H. reflexivity.
Qed.

Lemma blank_prompt_falsy (s : jsstring) :
  whitespace_only s = true -> negb (truthy (trim s)) = true.
Proof.
  intros H. apply trim_nil_iff in H. rewrite H. reflexivity.
Qed.

Lemma falsy_prompt_blank (s : jsstring) :
  negb (truthy (trim s)) = true -> whitespace_only s = true.
Proof.
  intros H. apply trim_nil_iff.
  destruct (trim s); [reflexivity | discriminate].
Qed.

End TrimFacts.

(* ================================================================== *)
(** ** The generation service *)

Section ServiceFacts.

Lemma push_inline_app (images : list jsstring) (ps : list GenAI.Part) :
  Gemini.push_inline images ps = images ++ Gemini.push_inline [] ps.
Proof.
  revert images.
  induction ps as [|part rest IH]; intros images; simpl.
  - now rewrite app_nil_r.
  - destruct (GenAI.inlineData part) as [b|].
    + rewrite IH.
      rewrite (IH [_]).
      now rewrite <- app_assoc.
    + apply IH.
Qed.

Lemma push_inline_data_uris (ps : list GenAI.Part) :
  Forall2 Spec.is_data_uri_of
          (filter Spec.carries_inline_data ps) (Gemini.push_inline [] ps).
Proof.
  induction ps as [|part rest IH]; simpl.
  - constructor.
  - unfold Spec.carries_inline_data at 1.
    destruct (GenAI.inlineData part) as [b|] eqn:Hb.
    + rewrite push_inline_app. simpl.
      constructor; [|exact IH].
      exists b. split; [exact Hb|].
      destruct b as [[mime|] [payload|]]; reflexivity.
    + exact IH.
Qed.

(** The optional chain of [generateImage] reaches the parts of the first
    candidate, and nothing else. *)
Lemma first_candidate_first_parts (response : GenAI.GenerateContentResponse) :
  Spec.first_candidate response = Spec.first_parts response.
Proof.
  unfold Spec.first_candidate, Gemini.first_candidate_parts.
  destruct response as [cands].
  destruct cands as [[|c rest]|]; try reflexivity.
  destruct c as [ct]. destruct ct as [[ps]|]; reflexivity.
Qed.

(** What a call of the service does once the credential is there. *)
Lemma generateImage_call (config : Gemini.GenerationConfig) net key sent0 :
  truthy key = true ->
  Gemini.call net (Gemini.generateImage config) (Gemini.mkWorld (Some key) sent0)
  = let req := GenAI.mkCall (GenAI.mkClient key) (Gemini.request_of config) in
    (Gemini.mkWorld (Some key) (sent0 ++ [req]),
     match net req with
     | Fulfilled response =>
         Fulfilled (Gemini.push_inline [] (Spec.first_candidate response))
     | Rejected e => Rejected e
     end).
Proof.
  intros Hkey.
  unfold Gemini.call, Gemini.generateImage, Gemini.getAI. simpl.
  rewrite Hkey. simpl.
  unfold Gemini.issue. simpl.
  destruct (net _) as [response|e]; simpl; [|reflexivity].
  unfold Spec.first_candidate.
  destruct (Gemini.first_candidate_parts response); reflexivity.
Qed.

(** C1. A successful call of [generateImage] returns one data URI per
    part of the first candidate that carries inline data, in the order of
    those parts, each [data:<mime>;base64,<data>] with that part's MIME
    type and payload; the other parts are skipped, and a response without
    any such part gives the empty sequence, not a failure. *)
Theorem generateImage_returns_data_uris
  (config : Gemini.GenerationConfig) net key sent0 response :
  truthy key = true ->
  net (GenAI.mkCall (GenAI.mkClient key) (Gemini.request_of config))
    = Fulfilled response ->
  exists images,
    snd (Gemini.call net (Gemini.generateImage config)
                     (Gemini.mkWorld (Some key) sent0))
      = Fulfilled images /\
    Forall2 Spec.is_data_uri_of
            (filter Spec.carries_inline_data (Spec.first_parts response))
            images /\
    length images
      = length (filter Spec.carries_inline_data (Spec.first_parts response)) /\
    (filter Spec.carries_inline_data (Spec.first_parts response) = [] ->
     images = []).
Proof.
  intros Hkey Hnet.
  exists (Gemini.push_inline [] (Spec.first_parts response)).
  rewrite generateImage_call by exact Hkey.
  simpl. rewrite Hnet. rewrite first_candidate_first_parts.
  pose proof (push_inline_data_uris (Spec.first_parts response)) as HF.
  repeat split.
  - exact HF.
  - symmetry. eapply Forall2_length. exact HF.
  - intros Hnone. rewrite Hnone in HF. inversion HF. reflexivity.
Qed.

(** C2. Without the credential [generateImage] throws, and nothing has
    been sent when it does. *)
Theorem generateImage_without_key_throws
  (config : Gemini.GenerationConfig) net (w : Gemini.World) :
  Gemini.GEMINI_API_KEY w = None ->
  Gemini.call net (Gemini.generateImage config) w
  = (w, Rejected (mkError (lit "GEMINI_API_KEY is not set in the environment."))).
Proof.
  intros Hkey.
  unfold Gemini.call, Gemini.generateImage, Gemini.getAI. simpl.
  rewrite Hkey. reflexivity.
Qed.

(** X3.  An empty credential is as good as none. *)
Lemma generateImage_empty_key_throws
  (config : Gemini.GenerationConfig) net (w : Gemini.World) :
  Gemini.GEMINI_API_KEY w = Some [] ->
  Gemini.call net (Gemini.generateImage config) w
  = (w, Rejected (mkError (lit "GEMINI_API_KEY is not set in the environment."))).
Proof.
  intros Hkey.
  unfold Gemini.call, Gemini.generateImage, Gemini.getAI. simpl.
  rewrite Hkey. reflexivity.
Qed.

(** C10. Two configurations with the same prompt, aspect ratio and model
    make [generateImage] send the same request (the model identifier, one
    text part holding the prompt, the aspect ratio as image
    configuration) and behave alike; [negativePrompt] and [numImages]
    change nothing. *)
Theorem generateImage_ignores_optional_fields
  (c1 c2 : Gemini.GenerationConfig) :
  Gemini.prompt c1 = Gemini.prompt c2 ->
  Gemini.aspectRatio c1 = Gemini.aspectRatio c2 ->
  Gemini.model c1 = Gemini.model c2 ->
  Gemini.request_of c1
    = GenAI.mkParameters
        (Gemini.ModelType_string (Gemini.model c2))
        (GenAI.mkContent
           (Some [GenAI.mkPart (Some (Gemini.prompt c2)) None]))
        (GenAI.mkConfig
           (GenAI.mkImageConfig (Gemini.AspectRatio_string (Gemini.aspectRatio c2)))) /\
  Gemini.request_of c1 = Gemini.request_of c2 /\
  forall net w,
    Gemini.call net (Gemini.generateImage c1) w
    = Gemini.call net (Gemini.generateImage c2) w.
Proof.
  intros Hp Ha Hm.
  assert (Hreq : Gemini.request_of c1 = Gemini.request_of c2).
  { unfold Gemini.request_of. now rewrite Hp, Ha, Hm. }
  split; [|split].
  - rewrite Hreq. reflexivity.
  - exact Hreq.
  - intros net w. unfold Gemini.generateImage. now rewrite Hreq.
Qed.

End ServiceFacts.

(* ================================================================== *)
(** ** Running composed bodies *)

Section ExecFacts.

Context {Req Resp : Type} {E : Type -> Type} {S : Type}.
Variable handle : forall X, E X -> S -> S * X.
Variable issue : Req -> S -> S.

Lemma exec_bind {A B} (p : Proc Req Resp E A) (f : A -> Proc Req Resp E B) s :
  exec handle issue (bind p f) s
  = match exec handle issue p s with
    | (s', Done (Fulfilled a)) => exec handle issue (f a) s'
    | (s', Done (Rejected e)) => (s', Done (Rejected e))
    | (s', Suspended k) => (s', Suspended (fun o => bind (k o) f))
    end.
Proof.
  revert s. induction p as [a|e|X ev k IH|req k IH]; intros s; simpl;
    try reflexivity.
  destruct (handle X ev s) as [s' x]. apply IH.
Qed.

Lemma exec_try_catch {A} (p : Proc Req Resp E A) h s :
  exec handle issue (try_catch p h) s
  = match exec handle issue p s with
    | (s', Done (Fulfilled a)) => (s', Done (Fulfilled a))
    | (s', Done (Rejected e)) => exec handle issue (h e) s'
    | (s', Suspended k) => (s', Suspended (fun o => try_catch (k o) h))
    end.
Proof.
  revert s. induction p as [a|e|X ev k IH|req k IH]; intros s; simpl;
    try reflexivity.
  destruct (handle X ev s) as [s' x]. apply IH.
Qed.

Lemma exec_try_finally {A} (p : Proc Req Resp E A) f s :
  exec handle issue (try_finally p f) s
  = match exec handle issue p s with
    | (s', Done (Fulfilled a)) => exec handle issue (bind f (fun _ => Ret a)) s'
    | (s', Done (Rejected e)) => exec handle issue (bind f (fun _ => Throw e)) s'
    | (s', Suspended k) => (s', Suspended (fun o => try_finally (k o) f))
    end.
Proof.
  revert s. induction p as [a|e|X ev k IH|req k IH]; intros s; simpl;
    try reflexivity.
  destruct (handle X ev s) as [s' x]. apply IH.
Qed.

End ExecFacts.

(* ================================================================== *)
(** ** The workflow controller *)

Section ControllerFacts.

Variable env : App.Env.

(** The [results.map] of [handleGenerate]: one record per payload. *)
Lemma mint_records (prompt : jsstring) (urls : list jsstring) (w : App.World) :
  App.start env
    (mapP (fun url =>
             id <- perform App.MathRandomId ;;
             timestamp <- perform App.DateNow ;;
             Ret (App.Image.mkGeneratedImage id url prompt timestamp))
          urls) w
  = (App.mkWorld (App.state w) (App.journal w)
                 (App.now_calls w + length urls)
                 (App.random_calls w + length urls),
     Done (Fulfilled
             (Spec.minted env prompt urls (App.random_calls w) (App.now_calls w)))).
Proof.
  unfold App.start. revert w.
  induction urls as [|url rest IH]; intros w.
  - simpl. rewrite !Nat.add_0_r. destruct w; reflexivity.
  - cbn [mapP]. rewrite exec_bind. cbn -[mapP].
    rewrite exec_bind. rewrite IH. cbn.
    rewrite !Nat.add_succ_r. reflexivity.
Qed.

Lemma submits_iff_not_blank (s : jsstring) :
  negb (truthy (trim s)) = false <-> whitespace_only s = false.
Proof.
  split; intros H.
  - destruct (whitespace_only s) eqn:E; [|reflexivity].
    apply blank_prompt_falsy in E. congruence.
  - destruct (negb (truthy (trim s))) eqn:E; [|reflexivity].
    apply falsy_prompt_blank in E. congruence.
Qed.

Lemma key_cases :
  Spec.lacks_key env \/ exists key, Spec.has_key env key.
Proof.
  unfold Spec.lacks_key, Spec.has_key.
  destruct (App.GEMINI_API_KEY env) as [[|c key]|] eqn:E; auto.
  right. exists (c :: key). split; reflexivity.
Qed.

(** A blank prompt: [handleGenerate] returns at once. *)
Lemma handleGenerate_blank (render : App.State) (w : App.World) :
  whitespace_only (App.prompt render) = true ->
  App.start env (App.handleGenerate render) w = (w, Done (Fulfilled tt)).
Proof.
  intros Hblank. unfold App.start, App.handleGenerate.
  rewrite (blank_prompt_falsy _ Hblank). reflexivity.
Qed.

(** No credential: the service throws before its [await], and the
    handler runs to its end in one go. *)
Lemma handleGenerate_refused (render : App.State) (w : App.World) :
  Spec.lacks_key env ->
  whitespace_only (App.prompt render) = false ->
  App.start env (App.handleGenerate render) w
  = (Spec.after_failure Spec.missing_key_error (Spec.marked w),
     Done (Fulfilled tt)).
Proof.
  intros Hkey Hblank. apply submits_iff_not_blank in Hblank.
  unfold App.start, App.handleGenerate. rewrite Hblank.
  destruct Hkey as [Hkey|Hkey]; cbn; rewrite Hkey; reflexivity.
Qed.

(** With the credential: the handler sets the flag, sends its request and
    parks; the continuation it leaves finishes either way. *)
Lemma handleGenerate_parks (render : App.State) (w : App.World) key :
  Spec.has_key env key ->
  whitespace_only (App.prompt render) = false ->
  exists k,
    App.start env (App.handleGenerate render) w
    = (App.issue (Spec.request key render) (Spec.marked w), Suspended k) /\
    (forall response w2,
       App.start env (k (Fulfilled response)) w2
       = (Spec.after_success env render response w2, Done (Fulfilled tt))) /\
    (forall e w2,
       App.start env (k (Rejected e)) w2
       = (Spec.after_failure e w2, Done (Fulfilled tt))).
Proof.
  intros [Hkey Htruthy] Hblank. apply submits_iff_not_blank in Hblank.
  unfold App.start, App.handleGenerate. rewrite Hblank.
  cbn. rewrite Hkey. cbn. rewrite Htruthy. cbn.
  eexists. split; [reflexivity|]. split.
  - intros response w2. cbn.
    rewrite exec_try_finally, exec_try_catch, exec_bind.
    pose proof (mint_records (App.prompt render) (Spec.payloads response) w2) as Hm.
    unfold App.start in Hm. cbn in Hm.
    assert (Hp : match Gemini.first_candidate_parts response with
                 | Some ps => Gemini.push_inline [] ps
                 | None => []
                 end = Spec.payloads response).
    { unfold Spec.payloads, Spec.first_candidate.
      destruct (Gemini.first_candidate_parts response); reflexivity. }
    rewrite Hp, Hm. reflexivity.
  - intros e w2. reflexivity.
Qed.

(** A parked [handleGenerate] had a non-blank prompt and the credential,
    and its continuation is the one [handleGenerate_parks] describes. *)
Lemma parked_inv (render : App.State) (w w1 : App.World) k :
  App.start env (App.handleGenerate render) w = (w1, Suspended k) ->
  exists key,
    Spec.has_key env key /\
    whitespace_only (App.prompt render) = false /\
    w1 = App.issue (Spec.request key render) (Spec.marked w) /\
    (forall response w2,
       App.start env (k (Fulfilled response)) w2
       = (Spec.after_success env render response w2, Done (Fulfilled tt))) /\
    (forall e w2,
       App.start env (k (Rejected e)) w2
       = (Spec.after_failure e w2, Done (Fulfilled tt))).
Proof.
  intros Hstart.
  destruct (whitespace_only (App.prompt render)) eqn:Hblank.
  - rewrite handleGenerate_blank in Hstart by exact Hblank. discriminate.
  - destruct key_cases as [Hno|[key Hkey]].
    + rewrite handleGenerate_refused in Hstart by assumption. discriminate.
    + exists key.
      destruct (handleGenerate_parks render w key Hkey Hblank)
        as (k0 & Hk0 & Hok & Hfail).
      rewrite Hk0 in Hstart.
      injection Hstart as Hw Hk. subst k w1.
      split; [exact Hkey|]. split; [reflexivity|]. split; [reflexivity|].
      split; assumption.
Qed.

Lemma minted_url prompt urls r n :
  map App.Image.url (Spec.minted env prompt urls r n) = urls.
Proof.
  revert r n. induction urls as [|u rest IH]; intros r n; simpl;
    [reflexivity | now rewrite IH].
Qed.

Lemma minted_length prompt urls r n :
  length (Spec.minted env prompt urls r n) = length urls.
Proof.
  rewrite <- (minted_url prompt urls r n) at 2. now rewrite length_map.
Qed.

Lemma minted_prompt prompt urls r n :
  Forall (fun img => App.Image.prompt img = prompt)
         (Spec.minted env prompt urls r n).
Proof.
  revert r n. induction urls as [|u rest IH]; intros r n; simpl;
    constructor; auto.
Qed.

Lemma minted_timestamp prompt urls r n :
  map App.Image.timestamp (Spec.minted env prompt urls r n)
  = map (App.now env) (seq n (length urls)).
Proof.
  revert r n. induction urls as [|u rest IH]; intros r n; simpl;
    [reflexivity | now rewrite IH].
Qed.

Lemma alerts_in_app j j' :
  App.alerts_in (j ++ j') = App.alerts_in j ++ App.alerts_in j'.
Proof.
  induction j as [|e j IH]; simpl; [reflexivity|].
  destruct e; simpl; now rewrite IH.
Qed.

Lemma sent_in_app j j' :
  App.sent_in (j ++ j') = App.sent_in j ++ App.sent_in j'.
Proof.
  induction j as [|e j IH]; simpl; [reflexivity|].
  destruct e; simpl; now rewrite IH.
Qed.

(** C3. A submission ends with the in-flight flag false whatever the
    service did, and clearing the flag is the last thing it does. *)
Theorem handleGenerate_clears_flag_last (render : App.State) (w : App.World) :
  whitespace_only (App.prompt render) = false ->
  match App.start env (App.handleGenerate render) w with
  | (w1, Done r) =>
      r = Fulfilled tt /\
      App.isGenerating (App.state w1) = false /\
      exists before,
        App.journal w1
        = App.journal w ++ before ++ [App.Updated (App.setIsGenerating false)]
  | (_, Suspended k) =>
      forall outcome w2, exists w3,
        App.start env (k outcome) w2 = (w3, Done (Fulfilled tt)) /\
        App.isGenerating (App.state w3) = false /\
        exists before,
          App.journal w3
          = App.journal w2 ++ before ++ [App.Updated (App.setIsGenerating false)]
  end.
Proof.
  intros Hblank.
  destruct key_cases as [Hno|[key Hkey]].
  - rewrite handleGenerate_refused by assumption.
    split; [reflexivity|]. split; [reflexivity|].
    exists [App.Updated (App.setIsGenerating true);
            App.Logged (lit "Generation failed:") Spec.missing_key_error;
            App.Alerted Spec.failure_notice].
    unfold Spec.after_failure, Spec.marked. cbn [App.journal].
    rewrite <- !app_assoc. reflexivity.
  - destruct (handleGenerate_parks render w key Hkey Hblank)
      as (k & Hk & Hok & Hfail).
    rewrite Hk. intros [response|e] w2.
    + exists (Spec.after_success env render response w2).
      split; [apply Hok|]. split; [reflexivity|].
      exists [App.Updated
                (App.setImages_prepend
                   (Spec.minted env (App.prompt render) (Spec.payloads response)
                                (App.random_calls w2) (App.now_calls w2)))].
      unfold Spec.after_success. cbn [App.journal].
      rewrite <- !app_assoc. reflexivity.
    + exists (Spec.after_failure e w2).
      split; [apply Hfail|]. split; [reflexivity|].
      exists [App.Logged (lit "Generation failed:") e;
              App.Alerted Spec.failure_notice].
      unfold Spec.after_failure. cbn [App.journal].
      rewrite <- !app_assoc. reflexivity.
Qed.

(** C4. When a submission's request is fulfilled, the records made for
    the returned payloads, in the payloads' order, come first in the new
    history, and the previous history follows them unchanged. *)
Theorem handleGenerate_prepends_batch
  (render : App.State) (w w1 : App.World) k :
  App.start env (App.handleGenerate render) w = (w1, Suspended k) ->
  forall response w2, exists w3 newImages,
    App.start env (k (Fulfilled response)) w2 = (w3, Done (Fulfilled tt)) /\
    map App.Image.url newImages = Spec.payloads response /\
    App.images (App.state w3) = newImages ++ App.images (App.state w2) /\
    firstn (length (Spec.payloads response)) (App.images (App.state w3))
      = newImages /\
    skipn (length (Spec.payloads response)) (App.images (App.state w3))
      = App.images (App.state w2).
Proof.
  intros Hstart response w2.
  destruct (parked_inv _ _ _ _ Hstart) as (key & _ & _ & _ & Hok & _).
  exists (Spec.after_success env render response w2).
  exists (Spec.minted env (App.prompt render) (Spec.payloads response)
                      (App.random_calls w2) (App.now_calls w2)).
  split; [apply Hok|].
  split; [apply minted_url|].
  split; [reflexivity|].
  cbn [Spec.after_success App.state App.apply App.images].
  rewrite <- (minted_length (App.prompt render) (Spec.payloads response)
                            (App.random_calls w2) (App.now_calls w2)).
  split.
  - rewrite firstn_app, Nat.sub_diag, firstn_all. cbn. apply app_nil_r.
  - rewrite skipn_app, Nat.sub_diag, skipn_all. reflexivity.
Qed.

(** C6. With an empty or whitespace-only prompt, [handleGenerate], called
    directly or by a click, returns at once: nothing is sent and the
    hooks, the in-flight flag among them, are as before. *)
Theorem handleGenerate_blank_prompt_noop (sys : App.System) :
  whitespace_only (App.prompt (App.state (App.world sys))) = true ->
  App.start env (App.handleGenerate (App.state (App.world sys))) (App.world sys)
    = (App.world sys, Done (Fulfilled tt)) /\
  App.step env sys App.Call_handleGenerate = sys /\
  App.step env sys App.Click_generate = sys.
Proof.
  intros Hblank.
  pose proof (handleGenerate_blank _ (App.world sys) Hblank) as H.
  split; [exact H|]. split.
  - unfold App.step, App.dispatch. rewrite H. destruct sys; reflexivity.
  - unfold App.step, App.dispatch, App.generate_disabled.
    destruct (_ || _); [reflexivity|].
    rewrite H. destruct sys; reflexivity.
Qed.

(** C7. When the service fails, be it for the missing credential or by a
    rejected request, the history is what it was and one notice, the same
    for every error, is shown; the hooks keep nothing of the error. *)
Theorem handleGenerate_failure_keeps_history (render : App.State) (w : App.World) :
  whitespace_only (App.prompt render) = false ->
  match App.start env (App.handleGenerate render) w with
  | (w1, Done _) =>
      App.images (App.state w1) = App.images (App.state w) /\
      App.alerts w1 = App.alerts w ++ [Spec.failure_notice]
  | (_, Suspended k) =>
      forall e w2, exists w3,
        App.start env (k (Rejected e)) w2 = (w3, Done (Fulfilled tt)) /\
        App.images (App.state w3) = App.images (App.state w2) /\
        App.alerts w3 = App.alerts w2 ++ [Spec.failure_notice] /\
        App.state w3 = App.apply (App.setIsGenerating false) (App.state w2)
  end.
Proof.
  intros Hblank.
  destruct key_cases as [Hno|[key Hkey]].
  - rewrite handleGenerate_refused by assumption.
    split; [reflexivity|].
    unfold App.alerts, Spec.after_failure, Spec.marked. cbn [App.journal].
    rewrite !alerts_in_app. cbn. now rewrite !app_nil_r.
  - destruct (handleGenerate_parks render w key Hkey Hblank)
      as (k & Hk & _ & Hfail).
    rewrite Hk. intros e w2.
    exists (Spec.after_failure e w2).
    split; [apply Hfail|]. split; [reflexivity|]. split; [|reflexivity].
    unfold App.alerts, Spec.after_failure. cbn [App.journal].
    rewrite !alerts_in_app. cbn. now rewrite !app_nil_r.
Qed.

(** C5, as the code has it.  While the flag is set the Generate button is
    disabled and a click on it changes nothing, so sends nothing;
    [handleGenerate] itself does not look at the flag, and a direct call
    with a non-blank prompt and the credential sends one more request. *)
Theorem click_while_in_flight_sends_nothing (sys : App.System) :
  App.isGenerating (App.state (App.world sys)) = true ->
  App.step env sys App.Click_generate = sys /\
  forall key,
    Spec.has_key env key ->
    whitespace_only (App.prompt (App.state (App.world sys))) = false ->
    App.sent (App.world (App.step env sys App.Call_handleGenerate))
    = App.sent (App.world sys) ++ [Spec.request key (App.state (App.world sys))].
Proof.
  intros Hflag. split.
  - unfold App.step, App.generate_disabled. rewrite Hflag. reflexivity.
  - intros key Hkey Hblank.
    destruct (handleGenerate_parks (App.state (App.world sys)) (App.world sys)
                                   key Hkey Hblank) as (k & Hk & _).
    unfold App.step, App.dispatch. rewrite Hk.
    unfold App.sent, App.issue, App.record, Spec.marked. cbn [App.world App.journal].
    rewrite !sent_in_app. cbn. now rewrite app_nil_r.
Qed.

(** C8, as the code has it.  An upload leaves the first five entries of
    the previous list followed by the new batch: at most five, the
    previous ones first, and of the new batch only the earliest selected
    that still fit. *)
Theorem handleFileUpload_keeps_first_five (files : list App.File) (w : App.World) :
  let prev := App.uploadedFiles (App.state w) in
  let next :=
    App.uploadedFiles
      (App.state (fst (App.start env (App.handleFileUpload (Some files)) w))) in
  next = firstn 5 (prev ++ files) /\
  length next <= 5 /\
  next = firstn 5 prev ++ firstn (5 - length prev) files.
Proof.
  change (App.uploadedFiles
            (App.state (fst (App.start env (App.handleFileUpload (Some files)) w))))
    with (firstn 5 (App.uploadedFiles (App.state w) ++ files)).
  cbv zeta. split; [reflexivity|]. split.
  - apply firstn_le_length.
  - apply firstn_app.
Qed.

(** C9, as the code has it.  The records of one batch all carry the
    prompt the submission was made with; each carries its own reading of
    the clock, taken when the record is made, so the timestamps are the
    successive readings and agree only if the clock stood still. *)
Theorem batch_shares_prompt_reads_clock_per_record
  (render : App.State) (w w1 : App.World) k :
  App.start env (App.handleGenerate render) w = (w1, Suspended k) ->
  forall response w2, exists w3 newImages,
    App.start env (k (Fulfilled response)) w2 = (w3, Done (Fulfilled tt)) /\
    App.images (App.state w3) = newImages ++ App.images (App.state w2) /\
    length newImages = length (Spec.payloads response) /\
    Forall (fun img => App.Image.prompt img = App.prompt render) newImages /\
    map App.Image.timestamp newImages
    = map (App.now env) (seq (App.now_calls w2) (length newImages)).
Proof.
  intros Hstart response w2.
  destruct (parked_inv _ _ _ _ Hstart) as (key & _ & _ & _ & Hok & _).
  exists (Spec.after_success env render response w2).
  exists (Spec.minted env (App.prompt render) (Spec.payloads response)
                      (App.random_calls w2) (App.now_calls w2)).
  split; [apply Hok|].
  split; [reflexivity|].
  split; [apply minted_length|].
  split; [apply minted_prompt|].
  rewrite minted_length. apply minted_timestamp.
Qed.

(** An event of the page that meets the hooks as they are now keeps at
    most one request outstanding. *)
Lemma step_single_flight (sys : App.System) (ev : App.Event) :
  Spec.from_page ev = true ->
  Spec.single_flight env sys ->
  Spec.single_flight env (App.step env sys ev).
Proof.
  intros Hev Hinv.
  destruct sys as [w parked]. unfold Spec.single_flight in *. cbn in Hinv.
  destruct ev as [| |i outcome|value|files|index]; try discriminate; cbn.
  - (* a click *)
    unfold App.generate_disabled.
    destruct Hinv as [[-> Hflag]|(k & -> & Hflag & Hk)]; rewrite Hflag; cbn.
    + destruct (negb (truthy (trim (App.prompt (App.state w))))) eqn:Hnb; cbn.
      { left. split; [reflexivity | exact Hflag]. }
      apply submits_iff_not_blank in Hnb.
      unfold App.dispatch.
      destruct key_cases as [Hno|[key Hkey]].
      * rewrite handleGenerate_refused by assumption. left. split; reflexivity.
      * destruct (handleGenerate_parks (App.state w) w key Hkey Hnb)
          as (k & Hk & Hok & Hfail).
        rewrite Hk. right. exists k. split; [reflexivity|]. split; [reflexivity|].
        intros [response|e] w2; eexists; (split; [auto|reflexivity]).
    + right. exists k. auto.
  - (* a request settles *)
    destruct Hinv as [[-> Hflag]|(k & -> & Hflag & Hk)].
    + destruct i; cbn; left; split; auto.
    + destruct i as [|i]; cbn.
      * destruct (Hk outcome w) as (w' & Hrun & Hclear).
        unfold App.dispatch. rewrite Hrun. left. split; [reflexivity|exact Hclear].
      * destruct i; cbn; right; exists k; auto.
  - (* typing *)
    destruct Hinv as [[-> Hflag]|(k & -> & Hflag & Hk)]; [left|right; exists k]; auto.
  - (* attaching files *)
    destruct files as [files|]; cbn;
      (destruct Hinv as [[-> Hflag]|(k & -> & Hflag & Hk)];
       [left|right; exists k]; auto).
  - (* removing a file *)
    destruct Hinv as [[-> Hflag]|(k & -> & Hflag & Hk)]; [left|right; exists k]; auto.
Qed.

End ControllerFacts.

(* ================================================================== *)
(** ** Where the code departs from the specification *)

Section Departures.

(** C5 as stated fails: called a second time while the first request is
    outstanding and the flag set, [handleGenerate] sends a second
    request. *)
Lemma second_call_sends_second_request :
  App.isGenerating (App.state (App.world Demo.in_flight)) = true /\
  length (App.pending Demo.in_flight) = 1 /\
  length (App.sent (App.world Demo.in_flight)) = 1 /\
  length (App.sent (App.world
            (App.step Demo.env Demo.in_flight App.Call_handleGenerate))) = 2 /\
  length (App.pending
            (App.step Demo.env Demo.in_flight App.Call_handleGenerate)) = 2.
Proof. repeat split. Qed.

(** C8 as stated fails: with four files attached and two more selected,
    the list kept is not the five most recent; of the new batch the
    earlier file stays and the later one is dropped. *)
Lemma upload_drops_latest_selected :
  let prev := App.uploadedFiles (App.state Demo.four_attached) in
  let batch := [Demo.file 5; Demo.file 6] in
  let next :=
    App.uploadedFiles
      (App.state (fst (App.start Demo.env (App.handleFileUpload (Some batch))
                                 Demo.four_attached))) in
  next = [Demo.file 1; Demo.file 2; Demo.file 3; Demo.file 4; Demo.file 5] /\
  Spec.most_recent 5 (prev ++ batch)
    = [Demo.file 2; Demo.file 3; Demo.file 4; Demo.file 5; Demo.file 6] /\
  next <> Spec.most_recent 5 (prev ++ batch) /\
  In (Demo.file 5) next /\
  ~ In (Demo.file 6) next.
Proof.
  cbv zeta. split; [reflexivity|]. split; [reflexivity|]. split.
  - intros H. vm_compute in H. discriminate H.
  - split.
    + vm_compute. tauto.
    + intros H. vm_compute in H.
      repeat (destruct H as [H|H]; [discriminate H|]). exact H.
Qed.

(** C9 as stated fails: the two records of one batch carry different
    timestamps as soon as the clock advances between them. *)
Lemma batch_timestamps_differ :
  let batch := App.images (App.state (App.world Demo.two_images)) in
  map App.Image.url batch = Spec.payloads Demo.response /\
  map App.Image.timestamp batch = [1000%Z; 1001%Z] /\
  ~ (forall a b, In a batch -> In b batch ->
                 App.Image.timestamp a = App.Image.timestamp b).
Proof.
  cbv zeta. split; [reflexivity|]. split; [reflexivity|].
  intros H.
  specialize (H (nth 0 (App.images (App.state (App.world Demo.two_images)))
                     (App.Image.mkGeneratedImage [] [] [] 0%Z))
                (nth 1 (App.images (App.state (App.world Demo.two_images)))
                     (App.Image.mkGeneratedImage [] [] [] 0%Z))).
  vm_compute in H.
  assert (E : 1000%Z = 1001%Z) by (apply H; tauto).
  discriminate E.
Qed.

End Departures.

(* ================================================================== *)
(** ** The theorems at work on the demo session *)

Section Instances.

Lemma generateImage_returns_data_uris_demo :
  truthy (lit "key") = true /\
  filter Spec.carries_inline_data (Spec.first_parts Demo.response)
    = [Demo.png; Demo.jpeg] /\
  snd (Gemini.call (fun _ => Fulfilled Demo.response)
                   (Gemini.generateImage Demo.config)
                   (Gemini.mkWorld (Some (lit "key")) []))
    = Fulfilled [lit "data:image/png;base64,QUFB";
                 lit "data:image/jpeg;base64,QkJC"].
Proof.
  split; [reflexivity|]. split; [reflexivity|].
  destruct (generateImage_returns_data_uris
              Demo.config (fun _ => Fulfilled Demo.response) (lit "key") []
              Demo.response eq_refl eq_refl)
    as (images & Hrun & Huris & _).
  rewrite Hrun. f_equal.
  change (filter Spec.carries_inline_data (Spec.first_parts Demo.response))
    with [Demo.png; Demo.jpeg] in Huris.
  inversion Huris as [|part1 uri1 parts1 uris1 H1 Hrest1]; subst.
  inversion Hrest1 as [|part2 uri2 parts2 uris2 H2 Hrest2]; subst.
  inversion Hrest2; subst.
  destruct H1 as (blob1 & Hblob1 & ->). injection Hblob1 as <-.
  destruct H2 as (blob2 & Hblob2 & ->). injection Hblob2 as <-.
  reflexivity.
Defined.

Lemma generateImage_without_key_throws_demo :
  Gemini.GEMINI_API_KEY (Gemini.mkWorld None []) = None /\
  Gemini.call (fun _ => Fulfilled Demo.response)
              (Gemini.generateImage Demo.config) (Gemini.mkWorld None [])
  = (Gemini.mkWorld None [], Rejected Spec.missing_key_error).
Proof.
  split; [reflexivity|].
  apply (generateImage_without_key_throws
           Demo.config (fun _ => Fulfilled Demo.response)
           (Gemini.mkWorld None [])); reflexivity.
Defined.

Lemma generateImage_ignores_optional_fields_demo :
  Gemini.negativePrompt Demo.config <> Gemini.negativePrompt Demo.config_with_options /\
  Gemini.numImages Demo.config <> Gemini.numImages Demo.config_with_options /\
  Gemini.request_of Demo.config
    = GenAI.mkParameters
        (lit "gemini-2.5-flash-image")
        (GenAI.mkContent (Some [GenAI.mkPart (Some (lit "a red bicycle")) None]))
        (GenAI.mkConfig (GenAI.mkImageConfig (lit "16:9"))) /\
  Gemini.request_of Demo.config = Gemini.request_of Demo.config_with_options /\
  forall net w,
    Gemini.call net (Gemini.generateImage Demo.config) w
    = Gemini.call net (Gemini.generateImage Demo.config_with_options) w.
Proof.
  split; [discriminate|]. split; [discriminate|].
  exact (generateImage_ignores_optional_fields
           Demo.config Demo.config_with_options eq_refl eq_refl eq_refl).
Defined.

Lemma handleGenerate_clears_flag_last_demo :
  whitespace_only (App.prompt Demo.typed) = false /\
  match App.start Demo.env (App.handleGenerate Demo.typed)
                  (Demo.world_of Demo.typed) with
  | (w1, Done r) =>
      r = Fulfilled tt /\
      App.isGenerating (App.state w1) = false /\
      exists before,
        App.journal w1
        = App.journal (Demo.world_of Demo.typed) ++ before
          ++ [App.Updated (App.setIsGenerating false)]
  | (_, Suspended k) =>
      forall outcome w2, exists w3,
        App.start Demo.env (k outcome) w2 = (w3, Done (Fulfilled tt)) /\
        App.isGenerating (App.state w3) = false /\
        exists before,
          App.journal w3
          = App.journal w2 ++ before ++ [App.Updated (App.setIsGenerating false)]
  end.
Proof.
  split; [reflexivity|].
  apply (handleGenerate_clears_flag_last Demo.env Demo.typed
                                         (Demo.world_of Demo.typed)).
  reflexivity.
Defined.

Lemma handleGenerate_prepends_batch_demo :
  let parked := App.start Demo.env (App.handleGenerate Demo.typed)
                          (Demo.world_of Demo.typed) in
  exists w1 k,
    parked = (w1, Suspended k) /\
    forall response w2, exists w3 newImages,
      App.start Demo.env (k (Fulfilled response)) w2 = (w3, Done (Fulfilled tt)) /\
      map App.Image.url newImages = Spec.payloads response /\
      App.images (App.state w3) = newImages ++ App.images (App.state w2) /\
      firstn (length (Spec.payloads response)) (App.images (App.state w3))
        = newImages /\
      skipn (length (Spec.payloads response)) (App.images (App.state w3))
        = App.images (App.state w2).
Proof.
  intros parked.
  exists (fst parked).
  exists (match snd parked with
          | Suspended k => k
          | Done _ => fun _ => Ret tt
          end).
  split; [reflexivity|].
  apply (handleGenerate_prepends_batch Demo.env Demo.typed
                                       (Demo.world_of Demo.typed) (fst parked)).
  reflexivity.
Defined.

Lemma click_while_in_flight_sends_nothing_demo :
  App.isGenerating (App.state (App.world Demo.in_flight)) = true /\
  App.step Demo.env Demo.in_flight App.Click_generate = Demo.in_flight /\
  forall key,
    Spec.has_key Demo.env key ->
    whitespace_only (App.prompt (App.state (App.world Demo.in_flight))) = false ->
    App.sent (App.world (App.step Demo.env Demo.in_flight App.Call_handleGenerate))
    = App.sent (App.world Demo.in_flight)
      ++ [Spec.request key (App.state (App.world Demo.in_flight))].
Proof.
  split; [reflexivity|].
  apply (click_while_in_flight_sends_nothing Demo.env Demo.in_flight).
  reflexivity.
Defined.

Lemma handleGenerate_blank_prompt_noop_demo :
  let sys := App.mkSystem (Demo.world_of Demo.blank) [] in
  whitespace_only (App.prompt (App.state (App.world sys))) = true /\
  App.start Demo.env (App.handleGenerate (App.state (App.world sys))) (App.world sys)
    = (App.world sys, Done (Fulfilled tt)) /\
  App.step Demo.env sys App.Call_handleGenerate = sys /\
  App.step Demo.env sys App.Click_generate = sys.
Proof.
  intros sys. split; [reflexivity|].
  apply (handleGenerate_blank_prompt_noop Demo.env sys).
  reflexivity.
Defined.

Lemma handleGenerate_failure_keeps_history_demo :
  whitespace_only (App.prompt Demo.typed) = false /\
  match App.start Demo.env (App.handleGenerate Demo.typed)
                  (Demo.world_of Demo.typed) with
  | (w1, Done _) =>
      App.images (App.state w1) = App.images (App.state (Demo.world_of Demo.typed)) /\
      App.alerts w1 = App.alerts (Demo.world_of Demo.typed) ++ [Spec.failure_notice]
  | (_, Suspended k) =>
      forall e w2, exists w3,
        App.start Demo.env (k (Rejected e)) w2 = (w3, Done (Fulfilled tt)) /\
        App.images (App.state w3) = App.images (App.state w2) /\
        App.alerts w3 = App.alerts w2 ++ [Spec.failure_notice] /\
        App.state w3 = App.apply (App.setIsGenerating false) (App.state w2)
  end.
Proof.
  split; [reflexivity|].
  apply (handleGenerate_failure_keeps_history Demo.env Demo.typed
                                              (Demo.world_of Demo.typed)).
  reflexivity.
Defined.

Lemma batch_shares_prompt_reads_clock_per_record_demo :
  let parked := App.start Demo.env (App.handleGenerate Demo.typed)
                          (Demo.world_of Demo.typed) in
  exists w1 k,
    parked = (w1, Suspended k) /\
    forall response w2, exists w3 newImages,
      App.start Demo.env (k (Fulfilled response)) w2 = (w3, Done (Fulfilled tt)) /\
      App.images (App.state w3) = newImages ++ App.images (App.state w2) /\
      length newImages = length (Spec.payloads response) /\
      Forall (fun img => App.Image.prompt img = App.prompt Demo.typed) newImages /\
      map App.Image.timestamp newImages
      = map (App.now Demo.env) (seq (App.now_calls w2) (length newImages)).
Proof.
  intros parked.
  exists (fst parked).
  exists (match snd parked with
          | Suspended k => k
          | Done _ => fun _ => Ret tt
          end).
  split; [reflexivity|].
  apply (batch_shares_prompt_reads_clock_per_record
           Demo.env Demo.typed (Demo.world_of Demo.typed) (fst parked)).
  reflexivity.
Defined.

End Instances.

(* ================================================================== *)
(** ** More on the generation service *)

Section ServiceEdges.

(** X1.  With the credential set, a call of [generateImage] sends exactly one
    request, whatever the endpoint answers: through a client made with
    the key as it is, for the configured model, with the prompt as its
    only part and the aspect ratio as image configuration. *)
Theorem generateImage_sends_one_request
  (config : Gemini.GenerationConfig) net key sent0 :
  truthy key = true ->
  Gemini.sent (fst (Gemini.call net (Gemini.generateImage config)
                                (Gemini.mkWorld (Some key) sent0)))
  = sent0 ++
    [GenAI.mkCall (GenAI.mkClient key)
       (GenAI.mkParameters
          (Gemini.ModelType_string (Gemini.model config))
          (GenAI.mkContent
             (Some [GenAI.mkPart (Some (Gemini.prompt config)) None]))
          (GenAI.mkConfig
             (GenAI.mkImageConfig
                (Gemini.AspectRatio_string (Gemini.aspectRatio config)))))].
Proof.
  intros Hkey. rewrite generateImage_call by exact Hkey. reflexivity.
Qed.

(** X2.  A request the endpoint rejects makes [generateImage] fail with the
    endpoint's own error, untranslated. *)
Theorem generateImage_propagates_rejection
  (config : Gemini.GenerationConfig) net key sent0 e :
  truthy key = true ->
  net (GenAI.mkCall (GenAI.mkClient key) (Gemini.request_of config)) = Rejected e ->
  snd (Gemini.call net (Gemini.generateImage config)
                   (Gemini.mkWorld (Some key) sent0))
  = Rejected e.
Proof.
  intros Hkey Hnet. rewrite generateImage_call by exact Hkey.
  cbn. rewrite Hnet. reflexivity.
Qed.

(** X4.  A response without candidates, with an empty list of candidates, or
    whose first candidate has no content or no parts, gives the empty
    sequence, not a failure. *)
Theorem generateImage_degenerate_response
  (config : Gemini.GenerationConfig) net key sent0 response :
  truthy key = true ->
  net (GenAI.mkCall (GenAI.mkClient key) (Gemini.request_of config))
    = Fulfilled response ->
  (GenAI.candidates response = None \/
   GenAI.candidates response = Some [] \/
   exists c rest,
     GenAI.candidates response = Some (c :: rest) /\
     (GenAI.content c = None \/
      GenAI.content c = Some (GenAI.mkContent None) \/
      GenAI.content c = Some (GenAI.mkContent (Some [])))) ->
  snd (Gemini.call net (Gemini.generateImage config)
                   (Gemini.mkWorld (Some key) sent0))
  = Fulfilled [].
Proof.
  intros Hkey Hnet Hshape. rewrite generateImage_call by exact Hkey.
  cbn. rewrite Hnet.
  unfold Spec.first_candidate, Gemini.first_candidate_parts.
  destruct Hshape as [H|[H|(c & rest & H & Hc)]]; rewrite H; cbn;
    try reflexivity.
  destruct Hc as [Hc|[Hc|Hc]]; rewrite Hc; reflexivity.
Qed.

(** X5.  Only the first candidate is read: what the candidates after it hold
    does not change the result. *)
Theorem generateImage_reads_first_candidate_only
  (config : Gemini.GenerationConfig) net1 net2 key sent0 c rest1 rest2 :
  truthy key = true ->
  net1 (GenAI.mkCall (GenAI.mkClient key) (Gemini.request_of config))
    = Fulfilled (GenAI.mkResponse (Some (c :: rest1))) ->
  net2 (GenAI.mkCall (GenAI.mkClient key) (Gemini.request_of config))
    = Fulfilled (GenAI.mkResponse (Some (c :: rest2))) ->
  Gemini.call net1 (Gemini.generateImage config) (Gemini.mkWorld (Some key) sent0)
  = Gemini.call net2 (Gemini.generateImage config) (Gemini.mkWorld (Some key) sent0).
Proof.
  intros Hkey H1 H2. rewrite !generateImage_call by exact Hkey.
  cbn. rewrite H1, H2. reflexivity.
Qed.

End ServiceEdges.

(* ================================================================== *)
(** ** Reference files *)

Section Attachments.

Variable env : App.Env.

Lemma files_after_upload (files : list App.File) (w : App.World) :
  Page.files_after env (App.handleFileUpload (Some files)) w
  = firstn 5 (App.uploadedFiles (App.state w) ++ files).
Proof. reflexivity. Qed.

Lemma files_after_remove (index : nat) (w : App.World) :
  Page.files_after env (App.removeFile index) w
  = App.filter_index_neq index 0 (App.uploadedFiles (App.state w)).
Proof. reflexivity. Qed.

Lemma filter_index_neq_before {A} (index from : nat) (l : list A) :
  index < from -> App.filter_index_neq index from l = l.
Proof.
  revert from. induction l as [|x l IH]; intros from Hlt; cbn; [reflexivity|].
  destruct (Nat.eqb_spec from index) as [E|_]; [lia|].
  rewrite IH by lia. reflexivity.
Qed.

Lemma filter_index_neq_spec {A} (index from : nat) (l : list A) :
  from <= index ->
  App.filter_index_neq index from l
  = firstn (index - from) l ++ skipn (S (index - from)) l.
Proof.
  revert from. induction l as [|x l IH]; intros from Hle; cbn.
  - now rewrite firstn_nil.
  - destruct (Nat.eqb_spec from index) as [E|NE].
    + subst. rewrite Nat.sub_diag. cbn.
      apply filter_index_neq_before. lia.
    + rewrite IH by lia.
      replace (index - from) with (S (index - S from)) by lia.
      reflexivity.
Qed.

(** X16.  A batch that fits is appended whole, in the order it was selected. *)
Theorem upload_with_room_appends (files : list App.File) (w : App.World) :
  length (App.uploadedFiles (App.state w)) + length files <= 5 ->
  Page.files_after env (App.handleFileUpload (Some files)) w
  = App.uploadedFiles (App.state w) ++ files.
Proof.
  intros Hroom. rewrite files_after_upload.
  apply firstn_all2. rewrite length_app. exact Hroom.
Qed.

(** X17.  With five files attached, selecting more changes nothing in the
    list. *)
Theorem upload_when_full_keeps_list (files : list App.File) (w : App.World) :
  length (App.uploadedFiles (App.state w)) = 5 ->
  Page.files_after env (App.handleFileUpload (Some files)) w
  = App.uploadedFiles (App.state w).
Proof.
  intros Hfull. rewrite files_after_upload.
  rewrite <- Hfull. rewrite firstn_app, Nat.sub_diag, firstn_all.
  cbn. apply app_nil_r.
Qed.

(** X19.  Removing the file at a position of the list takes out that entry and
    no other; the entries before and after it keep their order. *)
Theorem removeFile_takes_out_one (index : nat) (w : App.World) :
  index < length (App.uploadedFiles (App.state w)) ->
  Page.files_after env (App.removeFile index) w
  = firstn index (App.uploadedFiles (App.state w))
    ++ skipn (S index) (App.uploadedFiles (App.state w)) /\
  S (length (Page.files_after env (App.removeFile index) w))
  = length (App.uploadedFiles (App.state w)).
Proof.
  intros Hin. rewrite files_after_remove.
  rewrite filter_index_neq_spec by lia. rewrite Nat.sub_0_r.
  split; [reflexivity|].
  rewrite length_app, length_firstn, length_skipn. lia.
Qed.

(** X20.  Removing at a position past the end of the list changes nothing in
    it. *)
Theorem removeFile_out_of_range (index : nat) (w : App.World) :
  length (App.uploadedFiles (App.state w)) <= index ->
  Page.files_after env (App.removeFile index) w = App.uploadedFiles (App.state w).
Proof.
  intros Hout. rewrite files_after_remove.
  rewrite filter_index_neq_spec by lia. rewrite Nat.sub_0_r.
  rewrite firstn_all2 by exact Hout.
  rewrite skipn_all2 by lia. apply app_nil_r.
Qed.

(** X21.  Attaching one file where there is room and removing the last entry
    gives the list back. *)
Theorem upload_then_remove_last (file : App.File) (w : App.World) :
  length (App.uploadedFiles (App.state w)) < 5 ->
  Page.files_after env (App.removeFile (length (App.uploadedFiles (App.state w))))
              (fst (App.start env (App.handleFileUpload (Some [file])) w))
  = App.uploadedFiles (App.state w).
Proof.
  intros Hroom.
  rewrite files_after_remove.
  change (App.uploadedFiles
            (App.state (fst (App.start env (App.handleFileUpload (Some [file])) w))))
    with (Page.files_after env (App.handleFileUpload (Some [file])) w).
  rewrite files_after_upload.
  rewrite firstn_all2 by (rewrite length_app; cbn; lia).
  rewrite filter_index_neq_spec by lia. rewrite Nat.sub_0_r.
  rewrite firstn_app, Nat.sub_diag, firstn_all.
  rewrite skipn_all2 by (rewrite length_app; cbn; lia).
  cbn. now rewrite !app_nil_r.
Qed.

End Attachments.

(* ================================================================== *)
(** ** Submissions through the page *)

Section Submissions.

Variable env : App.Env.

(** X6.  What [handleGenerate] sends, with the credential and a prompt that is
    not blank: one request, holding the prompt exactly as typed (not
    trimmed) as its only part, the selected model and the selected aspect
    ratio; no reference file is part of it. *)
Theorem handleGenerate_request_as_typed
  (render : App.State) (w : App.World) key :
  Spec.has_key env key ->
  whitespace_only (App.prompt render) = false ->
  App.sent (fst (App.start env (App.handleGenerate render) w))
  = App.sent w ++
    [GenAI.mkCall (GenAI.mkClient key)
       (GenAI.mkParameters
          (Gemini.ModelType_string (App.model render))
          (GenAI.mkContent (Some [GenAI.mkPart (Some (App.prompt render)) None]))
          (GenAI.mkConfig
             (GenAI.mkImageConfig
                (Gemini.AspectRatio_string (App.aspectRatio render)))))].
Proof.
  intros Hkey Hblank.
  destruct (handleGenerate_parks env render w key Hkey Hblank) as (k & Hk & _).
  rewrite Hk. unfold App.sent, App.issue, App.record, Spec.marked.
  cbn [fst App.journal]. rewrite !sent_in_app. cbn. now rewrite app_nil_r.
Qed.

(** X7.  [handleGenerate] reads the prompt, the aspect ratio and the model of
    its render and nothing else: the theme, the flag, the history and the
    reference files make no difference to what it does. *)
Theorem handleGenerate_reads_three_hooks (r1 r2 : App.State) :
  App.prompt r1 = App.prompt r2 ->
  App.aspectRatio r1 = App.aspectRatio r2 ->
  App.model r1 = App.model r2 ->
  App.handleGenerate r1 = App.handleGenerate r2.
Proof.
  intros Hp Ha Hm. unfold App.handleGenerate. now rewrite Hp, Ha, Hm.
Qed.

(** A click on the enabled button followed by the settling of its
    request, on a page with nothing outstanding. *)
Lemma click_then_settle (sys : App.System) key outcome :
  App.pending sys = [] ->
  App.isGenerating (App.state (App.world sys)) = false ->
  whitespace_only (App.prompt (App.state (App.world sys))) = false ->
  Spec.has_key env key ->
  App.steps env sys [App.Click_generate; App.Settle 0 outcome]
  = let w := App.world sys in
    let parked := App.issue (Spec.request key (App.state w)) (Spec.marked w) in
    App.mkSystem
      match outcome with
      | Fulfilled response => Spec.after_success env (App.state w) response parked
      | Rejected e => Spec.after_failure e parked
      end
      [].
Proof.
  intros Hpending Hflag Hblank Hkey.
  destruct (handleGenerate_parks env (App.state (App.world sys)) (App.world sys)
                                 key Hkey Hblank) as (k & Hk & Hok & Hfail).
  unfold App.steps. cbn [fold_left].
  assert (Hclick : App.step env sys App.Click_generate
                   = App.mkSystem
                       (App.issue (Spec.request key (App.state (App.world sys)))
                                  (Spec.marked (App.world sys)))
                       [k]).
  { unfold App.step, App.generate_disabled. rewrite Hflag.
    apply submits_iff_not_blank in Hblank. rewrite Hblank. cbn [orb].
    unfold App.dispatch. rewrite Hk, Hpending. reflexivity. }
  rewrite Hclick. unfold App.step. cbn [App.pending App.world nth_error].
  unfold App.dispatch. cbv zeta.
  destruct outcome as [response|e]; [rewrite Hok | rewrite Hfail]; reflexivity.
Qed.

(** X11.  The records of a batch carry the prompt the button was clicked with,
    also when the prompt is edited while the request is outstanding; the
    edited prompt stays in the field. *)
Theorem batch_keeps_prompt_of_click (sys : App.System) key value response :
  App.pending sys = [] ->
  App.isGenerating (App.state (App.world sys)) = false ->
  whitespace_only (App.prompt (App.state (App.world sys))) = false ->
  Spec.has_key env key ->
  let sys' :=
    App.steps env sys
      [App.Click_generate; App.Change_prompt value;
       App.Settle 0 (Fulfilled response)] in
  exists batch,
    App.images (App.state (App.world sys'))
      = batch ++ App.images (App.state (App.world sys)) /\
    map App.Image.url batch = Spec.payloads response /\
    Forall (fun img => App.Image.prompt img
                       = App.prompt (App.state (App.world sys))) batch /\
    App.prompt (App.state (App.world sys')) = value.
Proof.
  intros Hpending Hflag Hblank Hkey sys'.
  destruct (handleGenerate_parks env (App.state (App.world sys)) (App.world sys)
                                 key Hkey Hblank) as (k & Hk & Hok & _).
  assert (Hrun : sys'
                 = App.mkSystem
                     (Spec.after_success env (App.state (App.world sys)) response
                        (Reach.updated (App.setPrompt value)
                           (App.issue (Spec.request key (App.state (App.world sys)))
                                      (Spec.marked (App.world sys)))))
                     []).
  { unfold sys', App.steps. cbn [fold_left].
    assert (Hclick : App.step env sys App.Click_generate
                     = App.mkSystem
                         (App.issue (Spec.request key (App.state (App.world sys)))
                                    (Spec.marked (App.world sys)))
                         [k]).
    { unfold App.step, App.generate_disabled. rewrite Hflag.
      apply submits_iff_not_blank in Hblank. rewrite Hblank. cbn [orb].
      unfold App.dispatch. rewrite Hk, Hpending. reflexivity. }
    rewrite Hclick.
    set (parked := App.issue (Spec.request key (App.state (App.world sys)))
                             (Spec.marked (App.world sys))).
    assert (Htyped : App.step env (App.mkSystem parked [k]) (App.Change_prompt value)
                     = App.mkSystem (Reach.updated (App.setPrompt value) parked) [k])
      by reflexivity.
    rewrite Htyped.
    unfold App.step. cbn [App.pending App.world nth_error].
    unfold App.dispatch. rewrite Hok. reflexivity. }
  rewrite Hrun.
  exists (Spec.minted env (App.prompt (App.state (App.world sys)))
                      (Spec.payloads response)
                      (App.random_calls (App.world sys))
                      (App.now_calls (App.world sys))).
  split; [reflexivity|]. split; [apply minted_url|].
  split; [apply minted_prompt | reflexivity].
Qed.

(** X8.  A submission that fails puts the hooks back exactly as they were
    before the click, shows the notice once, and leaves the button
    enabled for a retry. *)
Theorem failed_click_restores_hooks (sys : App.System) key e :
  App.pending sys = [] ->
  App.isGenerating (App.state (App.world sys)) = false ->
  whitespace_only (App.prompt (App.state (App.world sys))) = false ->
  Spec.has_key env key ->
  let sys' := App.steps env sys [App.Click_generate; App.Settle 0 (Rejected e)] in
  App.state (App.world sys') = App.state (App.world sys) /\
  App.pending sys' = [] /\
  App.alerts (App.world sys') = App.alerts (App.world sys) ++ [Spec.failure_notice] /\
  App.generate_disabled (App.state (App.world sys')) = false.
Proof.
  intros Hpending Hflag Hblank Hkey sys'.
  unfold sys'. rewrite (click_then_settle sys key) by assumption. cbv zeta.
  assert (Hstate : App.state (Spec.after_failure e
                     (App.issue (Spec.request key (App.state (App.world sys)))
                                (Spec.marked (App.world sys))))
                   = App.state (App.world sys)).
  { cbn. destruct (App.state (App.world sys)); cbn in *. now subst. }
  cbn [App.world App.pending]. rewrite Hstate.
  split; [reflexivity|]. split; [reflexivity|]. split.
  - unfold App.alerts, Spec.after_failure, App.issue, App.record, Spec.marked.
    cbn [App.journal]. rewrite !alerts_in_app. cbn. now rewrite !app_nil_r.
  - unfold App.generate_disabled. rewrite Hflag.
    apply submits_iff_not_blank in Hblank. now rewrite Hblank.
Qed.

(** X9.  Without the credential a click sends nothing: it shows the notice
    once, and the hooks and the outstanding requests are what they
    were. *)
Theorem click_without_key (sys : App.System) :
  Spec.lacks_key env ->
  App.isGenerating (App.state (App.world sys)) = false ->
  whitespace_only (App.prompt (App.state (App.world sys))) = false ->
  let sys' := App.step env sys App.Click_generate in
  App.sent (App.world sys') = App.sent (App.world sys) /\
  App.alerts (App.world sys') = App.alerts (App.world sys) ++ [Spec.failure_notice] /\
  App.state (App.world sys') = App.state (App.world sys) /\
  App.pending sys' = App.pending sys.
Proof.
  intros Hkey Hflag Hblank sys'. unfold sys', App.step, App.generate_disabled.
  rewrite Hflag. pose proof Hblank as Hnb.
  apply submits_iff_not_blank in Hnb. rewrite Hnb. cbn [orb].
  unfold App.dispatch. rewrite handleGenerate_refused by assumption.
  cbn [App.world App.pending].
  unfold App.sent, App.alerts, Spec.after_failure, Spec.marked. cbn [App.journal].
  rewrite !sent_in_app, !alerts_in_app. cbn. rewrite !app_nil_r.
  split; [reflexivity|]. split; [reflexivity|]. split; [|reflexivity].
  destruct (App.state (App.world sys)); cbn in *. now subst.
Qed.

(** X10.  Two submissions one after the other, both fulfilled: the history is
    the second batch, then the first, then what was there before. *)
Theorem two_generations_stack (sys : App.System) key r1 r2 :
  App.pending sys = [] ->
  App.isGenerating (App.state (App.world sys)) = false ->
  whitespace_only (App.prompt (App.state (App.world sys))) = false ->
  Spec.has_key env key ->
  let sys' :=
    App.steps env sys
      [App.Click_generate; App.Settle 0 (Fulfilled r1);
       App.Click_generate; App.Settle 0 (Fulfilled r2)] in
  exists batch1 batch2,
    App.images (App.state (App.world sys'))
      = batch2 ++ batch1 ++ App.images (App.state (App.world sys)) /\
    map App.Image.url batch1 = Spec.payloads r1 /\
    map App.Image.url batch2 = Spec.payloads r2 /\
    App.pending sys' = [] /\
    App.isGenerating (App.state (App.world sys')) = false.
Proof.
  intros Hpending Hflag Hblank Hkey sys'.
  set (sys1 := App.steps env sys [App.Click_generate; App.Settle 0 (Fulfilled r1)]).
  assert (Hsplit : sys' = App.steps env sys1
                            [App.Click_generate; App.Settle 0 (Fulfilled r2)])
    by reflexivity.
  pose proof (click_then_settle sys key (Fulfilled r1)
                                Hpending Hflag Hblank Hkey) as H1.
  fold sys1 in H1. cbv zeta in H1.
  assert (Hp1 : App.pending sys1 = []) by (rewrite H1; reflexivity).
  assert (Hf1 : App.isGenerating (App.state (App.world sys1)) = false)
    by (rewrite H1; reflexivity).
  assert (Hb1 : whitespace_only (App.prompt (App.state (App.world sys1))) = false)
    by (rewrite H1; exact Hblank).
  pose proof (click_then_settle sys1 key (Fulfilled r2) Hp1 Hf1 Hb1 Hkey) as H2.
  rewrite <- Hsplit in H2. cbv zeta in H2.
  eexists. eexists.
  split; [|split; [|split; [|split]]].
  - rewrite H2. cbn [App.world Spec.after_success App.state App.apply App.images
                      App.issue App.record Spec.marked].
    rewrite H1. cbn [App.world Spec.after_success App.state App.apply App.images
                      App.issue App.record Spec.marked].
    reflexivity.
  - apply minted_url.
  - apply minted_url.
  - rewrite H2. reflexivity.
  - rewrite H2. reflexivity.
Qed.

(** X12.  With a clock that never runs backwards, the timestamps of a batch
    never decrease along the batch. *)
Theorem batch_timestamps_follow_clock
  (render : App.State) (w w1 : App.World) k :
  (forall a b, a <= b -> (App.now env a <= App.now env b)%Z) ->
  App.start env (App.handleGenerate render) w = (w1, Suspended k) ->
  forall response w2 i j ti tj,
    i <= j ->
    nth_error (map App.Image.timestamp
                   (firstn (length (Spec.payloads response))
                           (App.images (App.state
                              (fst (App.start env (k (Fulfilled response)) w2))))))
              i = Some ti ->
    nth_error (map App.Image.timestamp
                   (firstn (length (Spec.payloads response))
                           (App.images (App.state
                              (fst (App.start env (k (Fulfilled response)) w2))))))
              j = Some tj ->
    (ti <= tj)%Z.
Proof.
  intros Hmono Hstart response w2 i j ti tj Hij Hi Hj.
  destruct (parked_inv env _ _ _ _ Hstart) as (key & _ & _ & _ & Hok & _).
  rewrite Hok in Hi, Hj.
  cbn [fst Spec.after_success App.state App.apply App.images] in Hi, Hj.
  rewrite <- (minted_length env (App.prompt render) (Spec.payloads response)
                            (App.random_calls w2) (App.now_calls w2)) in Hi, Hj.
  rewrite firstn_app, Nat.sub_diag, firstn_all in Hi, Hj.
  cbn [firstn] in Hi, Hj. rewrite app_nil_r in Hi, Hj.
  rewrite minted_timestamp in Hi, Hj.
  rewrite nth_error_map in Hi, Hj.
  destruct (nth_error (seq (App.now_calls w2) (length (Spec.payloads response))) i)
    as [a|] eqn:Ea; [|discriminate].
  destruct (nth_error (seq (App.now_calls w2) (length (Spec.payloads response))) j)
    as [b|] eqn:Eb; [|discriminate].
  injection Hi as <-. injection Hj as <-.
  apply Hmono.
  assert (Hli : i < length (seq (App.now_calls w2) (length (Spec.payloads response))))
    by (apply nth_error_Some; congruence).
  assert (Hlj : j < length (seq (App.now_calls w2) (length (Spec.payloads response))))
    by (apply nth_error_Some; congruence).
  rewrite length_seq in Hli, Hlj.
  apply nth_error_nth with (d := 0) in Ea, Eb.
  rewrite seq_nth in Ea, Eb by assumption. lia.
Qed.

End Submissions.

(* ================================================================== *)
(** ** What holds of every page reached from the first render *)

Section Reachable.

Variable env : App.Env.

Lemma parks_genuine (render : App.State) (w : App.World) key :
  Spec.has_key env key ->
  whitespace_only (App.prompt render) = false ->
  exists k,
    App.start env (App.handleGenerate render) w
    = (App.issue (Spec.request key render) (Spec.marked w), Suspended k) /\
    Reach.genuine env k.
Proof.
  intros Hkey Hblank.
  destruct (handleGenerate_parks env render w key Hkey Hblank)
    as (k & Hk & Hok & Hfail).
  exists k. split; [exact Hk|]. exists render. split; assumption.
Qed.

Lemma remove_nth_incl {A} (i : nat) (l : list A) (P : A -> Prop) :
  Forall P l -> Forall P (App.remove_nth i l).
Proof.
  intros H. revert i. induction H as [|x l Hx Hl IH]; intros i.
  - destruct i; constructor.
  - destruct i; cbn; [exact Hl|]. constructor; [exact Hx | apply IH].
Qed.

(** A call of [handleGenerate], by click or directly. *)
Lemma dispatch_handleGenerate_delta (sys : App.System) :
  Reach.sound env sys ->
  let sys' := App.dispatch env (App.handleGenerate (App.state (App.world sys)))
                           (App.world sys) (App.pending sys) in
  Reach.Delta env (App.world sys) (App.world sys') /\ Reach.sound env sys'.
Proof.
  intros Hsound. cbv zeta. unfold App.dispatch.
  destruct (whitespace_only (App.prompt (App.state (App.world sys)))) eqn:Hblank.
  - rewrite handleGenerate_blank by exact Hblank.
    split; [constructor | exact Hsound].
  - destruct (key_cases env) as [Hno|[key Hkey]].
    + rewrite handleGenerate_refused by assumption.
      split; [constructor | exact Hsound].
    + destruct (parks_genuine (App.state (App.world sys)) (App.world sys)
                              key Hkey Hblank) as (k & Hk & Hgen).
      rewrite Hk. split; [constructor|].
      unfold Reach.sound. cbn [App.pending].
      apply Forall_app. split; [exact Hsound | constructor; [exact Hgen|constructor]].
Qed.

Lemma set_delta (sys : App.System) (s : App.Setter) :
  Reach.by_control s ->
  Reach.sound env sys ->
  let sys' := App.dispatch env (perform (App.SetState s))
                           (App.world sys) (App.pending sys) in
  Reach.Delta env (App.world sys) (App.world sys') /\ Reach.sound env sys'.
Proof.
  intros Hs Hsound. cbv zeta. unfold App.dispatch. cbn.
  split; [apply (Reach.Control env _ s Hs) | exact Hsound].
Qed.

Lemma step_delta (sys : App.System) (ev : App.Event) :
  Reach.sound env sys ->
  Reach.Delta env (App.world sys) (App.world (App.step env sys ev)) /\
  Reach.sound env (App.step env sys ev).
Proof.
  intros Hsound.
  destruct ev as [| |i outcome|value|files|index]; unfold App.step.
  - destruct (App.generate_disabled _).
    + split; [constructor | exact Hsound].
    + apply dispatch_handleGenerate_delta. exact Hsound.
  - apply dispatch_handleGenerate_delta. exact Hsound.
  - destruct (nth_error (App.pending sys) i) as [k|] eqn:Hk.
    + assert (Hgen : Reach.genuine env k).
      { unfold Reach.sound in Hsound. rewrite Forall_forall in Hsound.
        apply Hsound. eapply nth_error_In. exact Hk. }
      destruct Hgen as (render & Hok & Hfail).
      unfold App.dispatch.
      destruct outcome as [response|e]; [rewrite Hok | rewrite Hfail];
        (split; [constructor | apply remove_nth_incl; exact Hsound]).
    + split; [constructor | exact Hsound].
  - apply set_delta; [exact I | exact Hsound].
  - destruct files as [files|].
    + apply (set_delta sys (App.setUploadedFiles_append files));
        [exact I | exact Hsound].
    + unfold App.dispatch. cbn. split; [constructor | exact Hsound].
  - apply (set_delta sys (App.setUploadedFiles_remove index));
      [exact I | exact Hsound].
Qed.

Lemma page_step_delta (page : Page.Page) (ev : Page.Event) :
  Reach.sound env (Page.system page) ->
  Reach.Delta env (App.world (Page.system page))
              (App.world (Page.system (Page.step env page ev))) /\
  Reach.sound env (Page.system (Page.step env page ev)).
Proof.
  intros Hsound. unfold Page.step, Page.commit. cbn [Page.system].
  destruct ev as [ev| |i| |].
  - apply step_delta. exact Hsound.
  - apply (set_delta _ App.setTheme_toggle); [exact I | exact Hsound].
  - destruct (nth_error Page.aspect_menu i) as [ratio|] eqn:Hi.
    + apply (set_delta _ (App.setAspectRatio ratio)); [|exact Hsound].
      eapply nth_error_In. exact Hi.
    + split; [constructor | exact Hsound].
  - apply (set_delta _ (App.setModel _)); [exact I | exact Hsound].
  - apply (set_delta _ (App.setModel _)); [exact I | exact Hsound].
Qed.

(** A relation every single change satisfies holds between a page and
    every page reached from it. *)
Lemma steps_closure (R : App.World -> App.World -> Prop) :
  (forall w, R w w) ->
  (forall a b c, R a b -> R b c -> R a c) ->
  (forall w w', Reach.Delta env w w' -> R w w') ->
  forall evs page,
    Reach.sound env (Page.system page) ->
    R (App.world (Page.system page))
      (App.world (Page.system (Page.steps env page evs))) /\
    Reach.sound env (Page.system (Page.steps env page evs)).
Proof.
  intros Hrefl Htrans Hdelta. unfold Page.steps.
  induction evs as [|ev evs IH]; intros page Hsound; cbn [fold_left].
  - split; [apply Hrefl | exact Hsound].
  - destruct (page_step_delta page ev Hsound) as [Hd Hs].
    destruct (IH _ Hs) as [Hr Hs'].
    split; [|exact Hs'].
    eapply Htrans; [apply Hdelta; exact Hd | exact Hr].
Qed.

Lemma mount_sound (root0 : list jsstring) :
  Reach.sound env (Page.system (Page.mount root0)).
Proof. constructor. Qed.

(** A property of the first render that every single change keeps holds
    of every page reached. *)
Lemma reach_invariant (P : App.World -> Prop) :
  P App.boot ->
  (forall w w', Reach.Delta env w w' -> P w -> P w') ->
  forall root0 evs,
    P (App.world (Page.system (Page.steps env (Page.mount root0) evs))).
Proof.
  intros Hboot Hkeep root0 evs.
  destruct (steps_closure (fun w w' => P w -> P w')
                          (fun _ H => H)
                          (fun a b c Hab Hbc Ha => Hbc (Hab Ha))
                          Hkeep evs (Page.mount root0) (mount_sound root0))
    as [H _].
  apply H. exact Hboot.
Qed.

Lemma delta_history (w w' : App.World) :
  Reach.Delta env w w' ->
  exists batch,
    App.images (App.state w') = batch ++ App.images (App.state w).
Proof.
  intros [ |s Hs| |key|render response|e].
  - exists []. reflexivity.
  - exists []. destruct s; cbn in Hs |- *; try reflexivity; contradiction.
  - exists []. reflexivity.
  - exists []. reflexivity.
  - eexists. reflexivity.
  - exists []. reflexivity.
Qed.

Lemma history_grows_from (page : Page.Page) (more : list Page.Event) :
  Reach.sound env (Page.system page) ->
  exists batch,
    App.images (App.state (App.world (Page.system (Page.steps env page more))))
    = batch ++ App.images (App.state (App.world (Page.system page))).
Proof.
  intros Hsound.
  destruct (steps_closure
              (fun w w' => exists batch,
                   App.images (App.state w') = batch ++ App.images (App.state w))
              (fun w => ex_intro _ [] eq_refl)) with (evs := more) (page := page)
    as [H _]; try assumption.
  - intros a b c [b1 H1] [b2 H2]. exists (b2 ++ b1).
    rewrite H2, H1. apply app_assoc.
  - apply delta_history.
Qed.

Lemma reached_sound (root0 : list jsstring) (evs : list Page.Event) :
  Reach.sound env (Page.system (Page.steps env (Page.mount root0) evs)).
Proof.
  apply (steps_closure (fun _ _ => True)); auto. apply mount_sound.
Qed.

Lemma history_grows (root0 : list jsstring) (evs more : list Page.Event) :
  exists batch,
    App.images (App.state (App.world (Page.system
      (Page.steps env (Page.mount root0) (evs ++ more)))))
    = batch ++
      App.images (App.state (App.world (Page.system
        (Page.steps env (Page.mount root0) evs)))).
Proof.
  unfold Page.steps. rewrite fold_left_app.
  apply history_grows_from. apply reached_sound.
Qed.

(** X14.  No event takes an image out of the history or moves one: the history
    of a page is the end of the history of every page reached from it. *)
Theorem history_only_grows (root0 : list jsstring) (evs more : list Page.Event) :
  exists batch,
    App.images (App.state (App.world (Page.system
      (Page.steps env (Page.mount root0) (evs ++ more)))))
    = batch ++
      App.images (App.state (App.world (Page.system
        (Page.steps env (Page.mount root0) evs)))).
Proof.
  unfold Page.steps. rewrite fold_left_app.
  apply history_grows_from. apply reached_sound.
Qed.

Lemma filter_index_neq_length {A} (index from : nat) (l : list A) :
  length (App.filter_index_neq index from l) <= length l.
Proof.
  revert from. induction l as [|x l IH]; intros from; cbn; [lia|].
  destruct (Nat.eqb from index); cbn; specialize (IH (S from)); lia.
Qed.

(** X18.  On every page reached from the first render, at most five reference
    files are attached. *)
Theorem attachments_never_exceed_five (root0 : list jsstring) (evs : list Page.Event) :
  length (App.uploadedFiles (App.state (App.world (Page.system
    (Page.steps env (Page.mount root0) evs))))) <= 5.
Proof.
  apply (reach_invariant
           (fun w => length (App.uploadedFiles (App.state w)) <= 5)).
  - cbn. lia.
  - intros w w' [ |s Hs| |key|render response|e] Hw; try exact Hw.
    destruct s; cbn [Reach.updated App.state App.apply App.uploadedFiles];
      try exact Hw.
    + apply firstn_le_length.
    + etransitivity; [apply filter_index_neq_length | exact Hw].
Qed.

(** X22.  On every page reached from the first render, the selected aspect
    ratio is one the menu lists, and so is the ratio of every request
    sent: 4:3 and 3:4 are never asked for. *)
Theorem ratio_always_from_menu (root0 : list jsstring) (evs : list Page.Event) :
  let w := App.world (Page.system (Page.steps env (Page.mount root0) evs)) in
  In (App.aspectRatio (App.state w)) Page.aspect_menu /\
  Forall (fun req => In (Reach.ratio_of req)
                        [lit "1:1"; lit "16:9"; lit "9:16"])
         (App.sent w).
Proof.
  cbv zeta.
  apply (reach_invariant
           (fun w =>
              In (App.aspectRatio (App.state w)) Page.aspect_menu /\
              Forall (fun req => In (Reach.ratio_of req)
                                    [lit "1:1"; lit "16:9"; lit "9:16"])
                     (App.sent w))).
  - split; [left; reflexivity | constructor].
  - intros w w' Hd [Hsel Hsent]. unfold App.sent in *.
    destruct Hd as [ |s Hs| |key|render response|e];
      cbn [Reach.updated Spec.after_failure Spec.after_success Spec.marked
           App.issue App.record App.state App.journal];
      rewrite ?sent_in_app; cbn [App.sent_in]; rewrite ?app_nil_r.
    + split; assumption.
    + split; [|exact Hsent].
      destruct s; cbn in Hs |- *; try exact Hsel; try contradiction. exact Hs.
    + split; assumption.
    + split; [exact Hsel|].
      apply Forall_app. split; [exact Hsent|].
      constructor; [|constructor].
      unfold Reach.ratio_of, Spec.request. cbn.
      apply (in_map Gemini.AspectRatio_string) in Hsel. exact Hsel.
    + split; assumption.
    + split; assumption.
Qed.

End Reachable.

(* ================================================================== *)
(** ** Identifiers, theme and placeholders *)

Section PageInvariants.

Variable env : App.Env.





Lemma jsstring_eqb_eq (a b : jsstring) :
  Page.jsstring_eqb a b = true <-> a = b.
Proof.
  revert b. induction a as [|x a IH]; intros [|y b]; cbn;
    try (split; [discriminate | discriminate]); try tauto.
  rewrite andb_true_iff, N.eqb_eq, IH.
  split; [intros [-> ->]; reflexivity | intros [= -> ->]; auto].
Qed.

Lemma theme_effect_dark (theme : App.Theme) (root : list jsstring) :
  In (lit "dark") (Page.theme_effect theme root) <-> theme = App.dark.
Proof.
  destruct theme; unfold Page.theme_effect.
  - split; [|discriminate].
    unfold Page.classList_remove. intros H. apply filter_In in H as [_ H].
    assert (E : Page.jsstring_eqb (lit "dark") (lit "dark") = true)
      by (apply jsstring_eqb_eq; reflexivity).
    rewrite E in H. discriminate.
  - split; [reflexivity|]. intros _. unfold Page.classList_add.
    destruct (existsb _ root) eqn:E.
    + apply existsb_exists in E as (c & Hc & E).
      apply jsstring_eqb_eq in E. now subst.
    + apply in_or_app. right. left. reflexivity.
Qed.

Lemma theme_effect_other (theme : App.Theme) (root : list jsstring) c :
  c <> lit "dark" ->
  In c (Page.theme_effect theme root) <-> In c root.
Proof.
  intros Hc. destruct theme; unfold Page.theme_effect.
  - unfold Page.classList_remove. rewrite filter_In. split; [tauto|].
    intros H. split; [exact H|].
    destruct (Page.jsstring_eqb (lit "dark") c) eqn:E; [|reflexivity].
    apply jsstring_eqb_eq in E. congruence.
  - unfold Page.classList_add. destruct (existsb _ root); [tauto|].
    rewrite in_app_iff. cbn. split; [|tauto].
    intros [H|[H|[]]]; [exact H | symmetry in H; contradiction].
Qed.

Lemma Theme_eqb_eq (a b : App.Theme) : Page.Theme_eqb a b = true <-> a = b.
Proof. destruct a, b; cbn; split; congruence. Qed.

(** X23.  On every page reached from the first render, the document root has
    the class [dark] exactly when the theme is dark, and its other
    classes are those it had before the first render. *)
Theorem root_class_follows_theme (root0 : list jsstring) (evs : list Page.Event) :
  let page := Page.steps env (Page.mount root0) evs in
  (In (lit "dark") (Page.root page)
   <-> App.theme (App.state (App.world (Page.system page))) = App.dark) /\
  (forall c, c <> lit "dark" -> (In c (Page.root page) <-> In c root0)).
Proof.
  cbv zeta.
  assert (Hmount :
    (In (lit "dark") (Page.root (Page.mount root0))
     <-> App.theme (App.state (App.world (Page.system (Page.mount root0)))) = App.dark) /\
    (forall c, c <> lit "dark" ->
               (In c (Page.root (Page.mount root0)) <-> In c root0))).
  { split; [apply theme_effect_dark | intros c Hc; now apply theme_effect_other]. }
  revert Hmount. generalize (Page.mount root0). unfold Page.steps.
  induction evs as [|ev evs IH]; intros page Hpage; cbn [fold_left];
    [exact Hpage|].
  apply IH. destruct Hpage as [Hdark Hother].
  unfold Page.step, Page.commit. cbv zeta.
  match goal with |- context [Page.mkPage ?s _] => generalize s end.
  intros sys'. cbn [Page.root Page.system].
  destruct (Page.Theme_eqb _ _) eqn:E.
  - apply Theme_eqb_eq in E. rewrite <- E. split; assumption.
  - split; [apply theme_effect_dark|].
    intros c Hc. rewrite theme_effect_other by exact Hc. now apply Hother.
Qed.

(** X24.  Once the history holds an image, the placeholders are never shown
    again and the Recent Activity list is never empty. *)
Theorem placeholders_only_before_first_image
  (root0 : list jsstring) (evs more : list Page.Event) :
  App.images (App.state (App.world (Page.system
    (Page.steps env (Page.mount root0) evs)))) <> [] ->
  let render := App.state (App.world (Page.system
                  (Page.steps env (Page.mount root0) (evs ++ more)))) in
  Page.shows_placeholders render = false /\
  Page.recent_activity render = Some (firstn 3 (App.images render)).
Proof.
  intros Hsome. cbv zeta.
  destruct (history_grows env root0 evs more) as [batch Hgrow].
  unfold Page.shows_placeholders, Page.recent_activity. rewrite Hgrow.
  destruct (batch ++ _) as [|img rest] eqn:E.
  - apply app_eq_nil in E as [_ E]. contradiction.
  - cbn [length Nat.eqb]. rewrite andb_false_r. split; reflexivity.
Qed.

(** A control of the page other than a direct call keeps at most one
    request outstanding, when it meets the hooks as they are now. *)
Lemma page_step_single_flight (page : Page.Page) (ev : Page.Event) :
  Reach.from_page ev = true ->
  Spec.single_flight env (Page.system page) ->
  Spec.single_flight env (Page.system (Page.step env page ev)).
Proof.
  intros Hev Hpage.
  unfold Page.step, Page.commit. cbn [Page.system].
  assert (Hset : forall s,
             Reach.by_control s ->
             Spec.single_flight env
               (App.dispatch env (perform (App.SetState s))
                             (App.world (Page.system page))
                             (App.pending (Page.system page)))).
  { intros s Hs. unfold App.dispatch. cbn.
    destruct Hpage as [[Hp Hf]|(k & Hp & Hf & Hk)].
    - left. split; [exact Hp|].
      destruct s; cbn in Hs |- *; try exact Hf; contradiction.
    - right. exists k. split; [exact Hp|]. split; [|exact Hk].
      destruct s; cbn in Hs |- *; try exact Hf; contradiction. }
  destruct ev as [ev| |i| |].
  - apply step_single_flight; assumption.
  - apply (Hset App.setTheme_toggle). exact I.
  - destruct (nth_error Page.aspect_menu i) as [ratio|] eqn:Hi;
      [|exact Hpage].
    apply (Hset (App.setAspectRatio ratio)). eapply nth_error_In. exact Hi.
  - apply (Hset (App.setModel _)). exact I.
  - apply (Hset (App.setModel _)). exact I.
Qed.

Lemma single_flight_idle (sys : App.System) :
  Spec.single_flight env sys ->
  App.isGenerating (App.state (App.world sys)) = false ->
  App.pending sys = [].
Proof.
  intros [[Hp _]|(k & _ & Hf & _)] Hflag; [exact Hp | congruence].
Qed.

Lemma single_flight_busy (sys : App.System) :
  Spec.single_flight env sys ->
  App.pending sys = [] ->
  App.isGenerating (App.state (App.world sys)) = false.
Proof.
  intros [[_ Hf]|(k & Hp & _)] Hnone; [exact Hf | congruence].
Qed.

(** A commit puts the flag as it is now on screen. *)
Lemma commit_settled (screen : Render.Screen) :
  Spec.single_flight env (Render.live screen) ->
  Render.settled env (Render.step env screen Render.Commit).
Proof.
  intros Hsf. split; [exact Hsf|].
  cbn. apply single_flight_idle. exact Hsf.
Qed.

(** A click on the button of a settled screen leaves at most one request
    outstanding. *)
Lemma click_single_flight (screen : Render.Screen) :
  Render.settled env screen ->
  Spec.single_flight env
    (Render.live (Render.step env screen
                    (Render.On (Page.Controller App.Click_generate)))).
Proof.
  intros [Hsf Hidle]. cbn [Render.step].
  unfold App.generate_disabled.
  destruct (App.isGenerating (Render.shown screen)) eqn:Hflag;
    [exact Hsf|]. cbn [orb].
  destruct (negb (truthy (trim (App.prompt (Render.shown screen))))) eqn:Hnb;
    [exact Hsf|].
  apply submits_iff_not_blank in Hnb.
  specialize (Hidle eq_refl).
  unfold Render.call_handleGenerate, App.dispatch. cbn [Render.live].
  rewrite Hidle.
  destruct (key_cases env) as [Hno|[key Hkey]].
  - rewrite handleGenerate_refused by assumption.
    left. split; reflexivity.
  - destruct (handleGenerate_parks env (Render.shown screen)
                (App.world (Render.live screen)) key Hkey Hnb)
      as (k & Hk & Hok & Hfail).
    rewrite Hk. right. exists k. split; [reflexivity|]. split; [reflexivity|].
    intros [response|e] w2; eexists; (split; [auto|reflexivity]).
Qed.

(** The other controls leave a page without outstanding request as
    such. *)
Lemma react_keeps_idle (sys : App.System) (ev : Page.Event) :
  ev <> Page.Controller App.Click_generate ->
  ev <> Page.Controller App.Call_handleGenerate ->
  App.pending sys = [] ->
  App.pending (Render.react env sys ev) = [].
Proof.
  intros Hclick Hcall Hnone.
  unfold Render.react, Page.step, Page.commit. cbn [Page.system].
  destruct ev as [[| |i outcome|value|files|index]| |i| |];
    try congruence; cbn; try exact Hnone.
  - rewrite Hnone. destruct i; exact Hnone.
  - destruct files; exact Hnone.
  - destruct (nth_error Page.aspect_menu i); exact Hnone.
Qed.

Lemma react_settled (screen : Render.Screen) (ev : Page.Event) :
  ev <> Page.Controller App.Click_generate ->
  ev <> Page.Controller App.Call_handleGenerate ->
  Reach.from_page ev = true ->
  Render.settled env screen ->
  Render.settled env
    (Render.mkScreen (Render.react env (Render.live screen) ev)
                     (Render.shown screen)).
Proof.
  intros Hclick Hcall Hev [Hsf Hidle]. split; cbn [Render.live Render.shown].
  - apply (page_step_single_flight (Page.mkPage (Render.live screen) []) ev Hev).
    exact Hsf.
  - intros Hflag. apply react_keeps_idle; auto.
Qed.

Lemma paced_keeps_settled (n : nat) :
  forall inputs screen,
    length inputs <= n ->
    Render.paced inputs = true ->
    Render.settled env screen ->
    Render.settled env (Render.steps env screen inputs).
Proof.
  unfold Render.steps.
  induction n as [|n IH]; intros inputs screen Hlen Hpaced Hscreen.
  - destruct inputs; [exact Hscreen | cbn in Hlen; lia].
  - destruct inputs as [|input rest]; [exact Hscreen|].
    cbn in Hlen.
    destruct input as [|ev].
    + (* a commit *)
      cbn [fold_left]. apply IH; [lia | exact Hpaced |].
      apply commit_settled. apply Hscreen.
    + destruct ev as [[| |i outcome|value|files|index]| |i| |];
        try (cbn [fold_left Render.step]; apply IH; [lia | exact Hpaced |];
             apply react_settled;
             [discriminate | discriminate | reflexivity | exact Hscreen]).
      * (* a click, then the commit *)
        destruct rest as [|[|ev'] rest']; try discriminate Hpaced.
        cbn [fold_left]. cbn in Hlen. apply IH; [lia | exact Hpaced |].
        apply commit_settled. apply click_single_flight. exact Hscreen.
      * discriminate Hpaced.
Qed.

(** X13.  When React renders again after every click on Generate, before
    anything else happens, and [handleGenerate] is never called directly:
    whatever else is clicked or typed and whenever requests settle, at
    most one request is outstanding, and the flag is set exactly while
    one is. *)
Theorem paced_single_flight (inputs : list Render.Input) :
  Render.paced inputs = true ->
  let sys := Render.live (Render.steps env Render.mount inputs) in
  length (App.pending sys) <= 1 /\
  (App.isGenerating (App.state (App.world sys)) = true
   <-> length (App.pending sys) = 1).
Proof.
  intros Hpaced. cbv zeta.
  assert (Hmount : Render.settled env Render.mount).
  { split; [left; split; reflexivity | reflexivity]. }
  destruct (paced_keeps_settled (length inputs) inputs Render.mount
                                (Nat.le_refl _) Hpaced Hmount)
    as [[[-> Hf]|(k & -> & Hf & _)] _]; cbn [length]; rewrite Hf.
  - split; [lia|]. split; discriminate.
  - split; [lia|]. split; reflexivity.
Qed.

(** Without a render between them, two clicks both run [handleGenerate]:
    two requests are sent, and once one of them is settled the flag is
    false with the other still outstanding. *)
Lemma double_click_sends_twice :
  let twice := Render.steps Demo.env Render.mount Render.double_click in
  let later :=
    Render.steps Demo.env twice
      [Render.Commit;
       Render.On (Page.Controller (App.Settle 0 (Fulfilled Demo.response)))] in
  Render.paced Render.double_click = false /\
  length (App.sent (App.world (Render.live twice))) = 2 /\
  length (App.pending (Render.live twice)) = 2 /\
  App.isGenerating (App.state (App.world (Render.live later))) = false /\
  length (App.pending (Render.live later)) = 1.
Proof. cbv zeta. repeat split. Qed.

End PageInvariants.

(* ================================================================== *)
(** ** The further theorems at work on the visit *)

Section Visit.

Lemma generateImage_sends_one_request_demo :
  truthy (lit "key") = true /\
  length (Gemini.sent (fst (Gemini.call (fun _ => Rejected Tour.quota)
                                        (Gemini.generateImage Demo.config)
                                        (Gemini.mkWorld (Some (lit "key")) []))))
  = 1.
Proof.
  split; [reflexivity|].
  rewrite (generateImage_sends_one_request
             Demo.config (fun _ => Rejected Tour.quota) (lit "key") [] eq_refl).
  reflexivity.
Defined.

Lemma generateImage_propagates_rejection_demo :
  truthy (lit "key") = true /\
  snd (Gemini.call (fun _ => Rejected Tour.quota)
                   (Gemini.generateImage Demo.config)
                   (Gemini.mkWorld (Some (lit "key")) []))
  = Rejected Tour.quota.
Proof.
  split; [reflexivity|].
  apply (generateImage_propagates_rejection
           Demo.config (fun _ => Rejected Tour.quota) (lit "key") [] Tour.quota);
    reflexivity.
Defined.

Lemma generateImage_empty_key_throws_demo :
  Gemini.GEMINI_API_KEY (Gemini.mkWorld (Some []) []) = Some [] /\
  Gemini.call (fun _ => Fulfilled Demo.response)
              (Gemini.generateImage Demo.config) (Gemini.mkWorld (Some []) [])
  = (Gemini.mkWorld (Some []) [], Rejected Spec.missing_key_error).
Proof.
  split; [reflexivity|].
  apply (generateImage_empty_key_throws
           Demo.config (fun _ => Fulfilled Demo.response)
           (Gemini.mkWorld (Some []) [])); reflexivity.
Defined.

Lemma generateImage_degenerate_response_demo :
  truthy (lit "key") = true /\
  snd (Gemini.call (fun _ => Fulfilled Tour.no_candidates)
                   (Gemini.generateImage Demo.config)
                   (Gemini.mkWorld (Some (lit "key")) []))
  = Fulfilled [].
Proof.
  split; [reflexivity|].
  apply (generateImage_degenerate_response
           Demo.config (fun _ => Fulfilled Tour.no_candidates) (lit "key") []
           Tour.no_candidates);
    [reflexivity | reflexivity | left; reflexivity].
Defined.

Lemma generateImage_reads_first_candidate_only_demo :
  truthy (lit "key") = true /\
  Gemini.call (fun _ => Fulfilled (GenAI.mkResponse (Some [Tour.first])))
              (Gemini.generateImage Demo.config)
              (Gemini.mkWorld (Some (lit "key")) [])
  = Gemini.call (fun _ => Fulfilled (GenAI.mkResponse (Some [Tour.first; Tour.second])))
                (Gemini.generateImage Demo.config)
                (Gemini.mkWorld (Some (lit "key")) []).
Proof.
  split; [reflexivity|].
  apply (generateImage_reads_first_candidate_only
           Demo.config
           (fun _ => Fulfilled (GenAI.mkResponse (Some [Tour.first])))
           (fun _ => Fulfilled (GenAI.mkResponse (Some [Tour.first; Tour.second])))
           (lit "key") [] Tour.first [] [Tour.second]);
    reflexivity.
Defined.

Lemma upload_with_room_appends_demo :
  length (App.uploadedFiles (App.state Demo.four_attached)) + length [Demo.file 5] <= 5 /\
  Page.files_after Demo.env (App.handleFileUpload (Some [Demo.file 5]))
                   Demo.four_attached
  = App.uploadedFiles (App.state Demo.four_attached) ++ [Demo.file 5].
Proof.
  split; [cbn; lia|].
  apply (upload_with_room_appends Demo.env [Demo.file 5] Demo.four_attached).
  cbn. lia.
Defined.

Lemma upload_when_full_keeps_list_demo :
  length (App.uploadedFiles (App.state Tour.five_attached)) = 5 /\
  Page.files_after Demo.env (App.handleFileUpload (Some [Demo.file 6]))
                   Tour.five_attached
  = App.uploadedFiles (App.state Tour.five_attached).
Proof.
  split; [reflexivity|].
  apply (upload_when_full_keeps_list Demo.env [Demo.file 6] Tour.five_attached).
  reflexivity.
Defined.

Lemma removeFile_takes_out_one_demo :
  1 < length (App.uploadedFiles (App.state Demo.four_attached)) /\
  Page.files_after Demo.env (App.removeFile 1) Demo.four_attached
  = firstn 1 (App.uploadedFiles (App.state Demo.four_attached))
    ++ skipn 2 (App.uploadedFiles (App.state Demo.four_attached)) /\
  S (length (Page.files_after Demo.env (App.removeFile 1) Demo.four_attached))
  = length (App.uploadedFiles (App.state Demo.four_attached)).
Proof.
  split; [cbn; lia|].
  apply (removeFile_takes_out_one Demo.env 1 Demo.four_attached).
  cbn. lia.
Defined.

Lemma removeFile_out_of_range_demo :
  length (App.uploadedFiles (App.state Demo.four_attached)) <= 4 /\
  Page.files_after Demo.env (App.removeFile 4) Demo.four_attached
  = App.uploadedFiles (App.state Demo.four_attached).
Proof.
  split; [cbn; lia|].
  apply (removeFile_out_of_range Demo.env 4 Demo.four_attached).
  cbn. lia.
Defined.

Lemma upload_then_remove_last_demo :
  length (App.uploadedFiles (App.state Demo.four_attached)) < 5 /\
  Page.files_after Demo.env
    (App.removeFile (length (App.uploadedFiles (App.state Demo.four_attached))))
    (fst (App.start Demo.env (App.handleFileUpload (Some [Demo.file 5]))
                    Demo.four_attached))
  = App.uploadedFiles (App.state Demo.four_attached).
Proof.
  split; [cbn; lia|].
  apply (upload_then_remove_last Demo.env (Demo.file 5) Demo.four_attached).
  cbn. lia.
Defined.

Lemma handleGenerate_request_as_typed_demo :
  Spec.has_key Demo.env (lit "key") /\
  whitespace_only (App.prompt Demo.typed) = false /\
  App.sent (fst (App.start Demo.env (App.handleGenerate Demo.typed)
                           (Demo.world_of Demo.typed)))
  = [GenAI.mkCall (GenAI.mkClient (lit "key"))
       (GenAI.mkParameters
          (lit "gemini-2.5-flash-image")
          (GenAI.mkContent (Some [GenAI.mkPart (Some (lit "a red bicycle")) None]))
          (GenAI.mkConfig (GenAI.mkImageConfig (lit "16:9"))))].
Proof.
  split; [split; reflexivity|]. split; [reflexivity|].
  apply (handleGenerate_request_as_typed
           Demo.env Demo.typed (Demo.world_of Demo.typed) (lit "key"));
    [split; reflexivity | reflexivity].
Defined.

Lemma handleGenerate_reads_three_hooks_demo :
  App.uploadedFiles Demo.typed <> App.uploadedFiles Tour.typed_otherwise /\
  App.handleGenerate Demo.typed = App.handleGenerate Tour.typed_otherwise.
Proof.
  split; [discriminate|].
  apply (handleGenerate_reads_three_hooks Demo.typed Tour.typed_otherwise);
    reflexivity.
Defined.

Lemma failed_click_restores_hooks_demo :
  let sys' := App.steps Demo.env Tour.ready
                [App.Click_generate; App.Settle 0 (Rejected Tour.quota)] in
  App.state (App.world sys') = App.state (App.world Tour.ready) /\
  App.pending sys' = [] /\
  App.alerts (App.world sys')
  = App.alerts (App.world Tour.ready) ++ [Spec.failure_notice] /\
  App.generate_disabled (App.state (App.world sys')) = false.
Proof.
  apply (failed_click_restores_hooks Demo.env Tour.ready (lit "key") Tour.quota);
    [reflexivity | reflexivity | reflexivity | split; reflexivity].
Defined.

Lemma click_without_key_demo :
  let sys' := App.step Demo.env_without_key Tour.ready App.Click_generate in
  App.sent (App.world sys') = App.sent (App.world Tour.ready) /\
  App.alerts (App.world sys')
  = App.alerts (App.world Tour.ready) ++ [Spec.failure_notice] /\
  App.state (App.world sys') = App.state (App.world Tour.ready) /\
  App.pending sys' = App.pending Tour.ready.
Proof.
  apply (click_without_key Demo.env_without_key Tour.ready);
    [left; reflexivity | reflexivity | reflexivity].
Defined.

Lemma two_generations_stack_demo :
  let sys' :=
    App.steps Demo.env Tour.ready
      [App.Click_generate; App.Settle 0 (Fulfilled Demo.response);
       App.Click_generate; App.Settle 0 (Fulfilled Demo.response)] in
  exists batch1 batch2,
    App.images (App.state (App.world sys'))
      = batch2 ++ batch1 ++ App.images (App.state (App.world Tour.ready)) /\
    map App.Image.url batch1 = Spec.payloads Demo.response /\
    map App.Image.url batch2 = Spec.payloads Demo.response /\
    App.pending sys' = [] /\
    App.isGenerating (App.state (App.world sys')) = false.
Proof.
  apply (two_generations_stack Demo.env Tour.ready (lit "key")
                               Demo.response Demo.response);
    [reflexivity | reflexivity | reflexivity | split; reflexivity].
Defined.

Lemma batch_timestamps_follow_clock_demo :
  let parked := App.start Demo.env (App.handleGenerate Demo.typed)
                          (Demo.world_of Demo.typed) in
  (forall a b, a <= b -> (App.now Demo.env a <= App.now Demo.env b)%Z) /\
  exists w1 k,
    parked = (w1, Suspended k) /\
    forall response w2 i j ti tj,
      i <= j ->
      nth_error (map App.Image.timestamp
                     (firstn (length (Spec.payloads response))
                             (App.images (App.state
                                (fst (App.start Demo.env (k (Fulfilled response)) w2))))))
                i = Some ti ->
      nth_error (map App.Image.timestamp
                     (firstn (length (Spec.payloads response))
                             (App.images (App.state
                                (fst (App.start Demo.env (k (Fulfilled response)) w2))))))
                j = Some tj ->
      (ti <= tj)%Z.
Proof.
  intros parked.
  assert (Hclock : forall a b, a <= b ->
                               (App.now Demo.env a <= App.now Demo.env b)%Z)
    by (intros a b Hab;
        change (1000 + Z.of_nat a <= 1000 + Z.of_nat b)%Z; lia).
  split; [exact Hclock|].
  exists (fst parked).
  exists (match snd parked with
          | Suspended k => k
          | Done _ => fun _ => Ret tt
          end).
  split; [reflexivity|].
  apply (batch_timestamps_follow_clock
           Demo.env Demo.typed (Demo.world_of Demo.typed) (fst parked));
    [exact Hclock | reflexivity].
Defined.


Lemma placeholders_only_before_first_image_demo :
  App.images (App.state (App.world (Page.system
    (Page.steps Demo.env (Page.mount []) Tour.first_image)))) <> [] /\
  let render := App.state (App.world (Page.system
                  (Page.steps Demo.env (Page.mount [])
                              (Tour.first_image ++ Tour.afterwards)))) in
  App.isGenerating render = true /\
  Page.shows_placeholders render = false /\
  Page.recent_activity render = Some (firstn 3 (App.images render)).
Proof.
  split; [discriminate|].
  cbv zeta. split; [reflexivity|].
  apply (placeholders_only_before_first_image
           Demo.env [] Tour.first_image Tour.afterwards).
  discriminate.
Defined.

Lemma paced_single_flight_demo :
  Render.paced Render.paced_clicks = true /\
  let sys := Render.live (Render.steps Demo.env Render.mount Render.paced_clicks) in
  length (App.sent (App.world sys)) = 1 /\
  length (App.pending sys) <= 1 /\
  (App.isGenerating (App.state (App.world sys)) = true
   <-> length (App.pending sys) = 1).
Proof.
  split; [reflexivity|]. cbv zeta. split; [reflexivity|].
  apply (paced_single_flight Demo.env Render.paced_clicks).
  reflexivity.
Defined.

Lemma batch_keeps_prompt_of_click_demo :
  let sys' :=
    App.steps Demo.env Tour.ready
      [App.Click_generate; App.Change_prompt (lit "a blue car");
       App.Settle 0 (Fulfilled Demo.response)] in
  exists batch,
    App.images (App.state (App.world sys'))
      = batch ++ App.images (App.state (App.world Tour.ready)) /\
    map App.Image.url batch = Spec.payloads Demo.response /\
    Forall (fun img => App.Image.prompt img = lit "a red bicycle") batch /\
    App.prompt (App.state (App.world sys')) = lit "a blue car".
Proof.
  apply (batch_keeps_prompt_of_click Demo.env Tour.ready (lit "key")
                                     (lit "a blue car") Demo.response);
    [reflexivity | reflexivity | reflexivity | split; reflexivity].
Defined.

End Visit.
